(** * PowerTip utility functions (src/utility.js): a shallow embedding

    Pixel quantities, scroll offsets and flag values are JavaScript numbers
    that hold integers; they are modelled as [Z].  Fractional values, which
    a browser may report, are outside the model, and so is the rounding of
    JavaScript's arithmetic: a property that rests on sums cancelling is
    stated for integer values of bounded magnitude ([integer_pixels]), on
    which these sums are exact.  The bitwise operators of JavaScript work on
    the 32-bit two's complement image of their operands (ToInt32); that
    conversion is written out in [to_int32].

    The session object is a process-wide mutable object in the source; here
    it is a record threaded explicitly through every function that reads or
    writes it.  What the source reads from the browser at call time (window
    metrics, geometry of the body element, geometry of a hovered element) is
    gathered in records that the functions take as arguments. *)

From Equations Require Import Equations.
From Stdlib Require Import ZArith Lia List Bool Ascii String.
Import ListNotations.

Local Open Scope Z_scope.

(** ** JavaScript integer operators *)

Module JS.

(** ToInt32 of a number holding an integer: reduce modulo 2^32 into
    the range -2^31 .. 2^31 - 1. *)
Definition to_int32 (v : Z) : Z := (v + 2 ^ 31) mod 2 ^ 32 - 2 ^ 31.

(** [a & b] *)
Definition band (a b : Z) : Z := Z.land (to_int32 a) (to_int32 b).

(** [a | b] *)
Definition bor (a b : Z) : Z := Z.lor (to_int32 a) (to_int32 b).

(** Truthiness of a number, as tested by [while (value)] and [if (value)]. *)
Definition truthy (v : Z) : bool := negb (v =? 0).

(** [Math.abs] *)
Definition Math_abs (v : Z) : Z := Z.abs v.

Definition in_int32 (v : Z) : Prop := - 2 ^ 31 <= v < 2 ^ 31.

Definition in_int32b (v : Z) : bool := (- 2 ^ 31 <=? v) && (v <? 2 ^ 31).

End JS.

(** ** Data model *)

(** [{top, left}] objects, as returned by jQuery's [offset()] and
    [position()]. *)
Module Position.
Record t : Set := mk { top : Z; left : Z }.
End Position.

(** The [Offsets] objects returned by [computePositionCompensation]. *)
Module Offsets.
Record t : Set := mk { top : Z; left : Z; right : Z; bottom : Z }.
Definition zero : t := mk 0 0 0 0.
End Offsets.

(** The [CSSCoordinates] argument of [getViewportCollisions], with its four
    numeric edges. *)
Module Coords.
Record t : Set := mk { top : Z; left : Z; right : Z; bottom : Z }.
End Coords.

(** The rectangle returned by [getBoundingClientRect()]. *)
Module Rect.
Record t : Set := mk { left : Z; top : Z; right : Z; bottom : Z }.
End Rect.

(** Modelled from the spec: the [Collision] flag table, which the source
    uses but does not declare in utility.js; the data model of the spec gives
    none=0, top=1, bottom=2, left=4, right=8. *)
Module Collision.
Definition none : Z := 0.
Definition top : Z := 1.
Definition bottom : Z := 2.
Definition left : Z := 4.
Definition right : Z := 8.
End Collision.

(** The fields of the shared [session] object that utility.js reads or
    writes. *)
Record Session : Set := mkSession {
  scrollLeft : Z;
  scrollTop : Z;
  windowWidth : Z;
  windowHeight : Z;
  positionCompensation : Offsets.t;
  currentX : Z;
  currentY : Z;
  mouseTrackingActive : bool
}.

Definition set_scrollLeft (v : Z) (s : Session) : Session :=
  mkSession v (scrollTop s) (windowWidth s) (windowHeight s)
    (positionCompensation s) (currentX s) (currentY s) (mouseTrackingActive s).

Definition set_scrollTop (v : Z) (s : Session) : Session :=
  mkSession (scrollLeft s) v (windowWidth s) (windowHeight s)
    (positionCompensation s) (currentX s) (currentY s) (mouseTrackingActive s).

Definition set_windowWidth (v : Z) (s : Session) : Session :=
  mkSession (scrollLeft s) (scrollTop s) v (windowHeight s)
    (positionCompensation s) (currentX s) (currentY s) (mouseTrackingActive s).

Definition set_windowHeight (v : Z) (s : Session) : Session :=
  mkSession (scrollLeft s) (scrollTop s) (windowWidth s) v
    (positionCompensation s) (currentX s) (currentY s) (mouseTrackingActive s).

Definition set_positionCompensation (v : Offsets.t) (s : Session) : Session :=
  mkSession (scrollLeft s) (scrollTop s) (windowWidth s) (windowHeight s)
    v (currentX s) (currentY s) (mouseTrackingActive s).

Definition set_currentX (v : Z) (s : Session) : Session :=
  mkSession (scrollLeft s) (scrollTop s) (windowWidth s) (windowHeight s)
    (positionCompensation s) v (currentY s) (mouseTrackingActive s).

Definition set_currentY (v : Z) (s : Session) : Session :=
  mkSession (scrollLeft s) (scrollTop s) (windowWidth s) (windowHeight s)
    (positionCompensation s) (currentX s) v (mouseTrackingActive s).

Definition set_mouseTrackingActive (v : bool) (s : Session) : Session :=
  mkSession (scrollLeft s) (scrollTop s) (windowWidth s) (windowHeight s)
    (positionCompensation s) (currentX s) (currentY s) v.

(** ** What the browser answers at call time *)

(** [$window.scrollLeft()], [$window.scrollTop()], [$window.width()] and
    [$window.height()]. *)
Module Window.
Record t : Set := mk { scrollLeft : Z; scrollTop : Z; width : Z; height : Z }.
End Window.

(** The queries made on [$('body')]: [css('position')], [offset()],
    [position()], [outerWidth(true)], [outerWidth()], [outerHeight(true)]
    and [outerHeight()]. *)
Module Body.
Record t : Set := mk {
  css_position : string;
  offset : Position.t;
  position : Position.t;
  outerWidth_true : Z;
  outerWidth : Z;
  outerHeight_true : Z;
  outerHeight : Z
}.
End Body.

Record Dom : Set := mkDom { dom_window : Window.t; dom_body : Body.t }.

(** A hovered element: [element.offset()] and
    [element[0].getBoundingClientRect()]. *)
Module Element.
Record t : Set := mk { offset : Position.t; boundingClientRect : Rect.t }.
End Element.

(** The part of a mousemove [jQuery.Event] that [trackMouse] reads. *)
Record MouseEvent : Set := mkMouseEvent { pageX : Z; pageY : Z }.

(** ** The functions of utility.js *)

Local Open Scope string_scope.

(** [computePositionCompensation(windowWidth, windowHeight)] *)
Definition computePositionCompensation
    (body : Body.t) (windowWidth windowHeight : Z) : Offsets.t :=
  let p := Body.css_position body in
  if (p =? "absolute") || (p =? "fixed") || (p =? "relative") then
    let offsets := Body.offset body in
    let bodyPositionPx := Body.position body in
    let bodyWidthWithMargin := Body.outerWidth_true body in
    let bodyHeightWithMargin := Body.outerHeight_true body in
    let offsets_right :=
      ((bodyWidthWithMargin - Body.outerWidth body
        - (Position.left offsets - Position.left bodyPositionPx))
       + (windowWidth - bodyWidthWithMargin - Position.left bodyPositionPx))%Z in
    let offsets_bottom :=
      ((bodyHeightWithMargin - Body.outerHeight body - Position.top offsets)
       + (windowHeight - bodyHeightWithMargin - Position.top bodyPositionPx))%Z in
    Offsets.mk (Position.top offsets) (Position.left offsets)
      offsets_right offsets_bottom
  else
    Offsets.mk 0 0 0 0.

Local Close Scope string_scope.

(** [getViewportDimensions()] *)
Definition getViewportDimensions (dom : Dom) (session : Session) : Session :=
  let session := set_scrollLeft (Window.scrollLeft (dom_window dom)) session in
  let session := set_scrollTop (Window.scrollTop (dom_window dom)) session in
  let session := set_windowWidth (Window.width (dom_window dom)) session in
  let session := set_windowHeight (Window.height (dom_window dom)) session in
  set_positionCompensation
    (computePositionCompensation (dom_body dom)
       (windowWidth session) (windowHeight session))
    session.

(** [trackResize()] *)
Definition trackResize (dom : Dom) (session : Session) : Session :=
  let session := set_windowWidth (Window.width (dom_window dom)) session in
  let session := set_windowHeight (Window.height (dom_window dom)) session in
  set_positionCompensation
    (computePositionCompensation (dom_body dom)
       (windowWidth session) (windowHeight session))
    session.

(** [trackScroll()] *)
Definition trackScroll (dom : Dom) (session : Session) : Session :=
  let x := Window.scrollLeft (dom_window dom) in
  let y := Window.scrollTop (dom_window dom) in
  let session :=
    if negb (x =? scrollLeft session) then
      let session :=
        set_currentX (currentX session + (x - scrollLeft session)) session in
      set_scrollLeft x session
    else session in
  if negb (y =? scrollTop session) then
    let session :=
      set_currentY (currentY session + (y - scrollTop session)) session in
    set_scrollTop y session
  else session.

(** [trackMouse(event)] *)
Definition trackMouse (event : MouseEvent) (session : Session) : Session :=
  let session := set_currentX (pageX event) session in
  set_currentY (pageY event) session.

(** [isMouseOver(element)] *)
Definition isMouseOver (session : Session) (element : Element.t) : bool :=
  let elementPosition := Element.offset element in
  let elementBox := Element.boundingClientRect element in
  let elementWidth := Rect.right elementBox - Rect.left elementBox in
  let elementHeight := Rect.bottom elementBox - Rect.top elementBox in
  (currentX session >=? Position.left elementPosition)
  && (currentX session <=? Position.left elementPosition + elementWidth)
  && (currentY session >=? Position.top elementPosition)
  && (currentY session <=? Position.top elementPosition + elementHeight).

(** [getViewportCollisions(coords, elementWidth, elementHeight)] *)
Definition getViewportCollisions
    (session : Session) (coords : Coords.t) (elementWidth elementHeight : Z)
    : Z :=
  let viewportTop := scrollTop session - Offsets.top (positionCompensation session) in
  let viewportLeft := scrollLeft session - Offsets.left (positionCompensation session) in
  let viewportBottom := viewportTop + windowHeight session in
  let viewportRight := viewportLeft + windowWidth session in
  let collisions := Collision.none in
  let collisions :=
    if (Coords.top coords <? viewportTop)
       || (JS.Math_abs (Coords.bottom coords - windowHeight session)
             - elementHeight <? viewportTop)
    then JS.bor collisions Collision.top else collisions in
  let collisions :=
    if (Coords.top coords + elementHeight >? viewportBottom)
       || (JS.Math_abs (Coords.bottom coords - windowHeight session)
             >? viewportBottom)
    then JS.bor collisions Collision.bottom else collisions in
  let collisions :=
    if (Coords.left coords <? viewportLeft)
       || (Coords.right coords + elementWidth >? viewportRight)
    then JS.bor collisions Collision.left else collisions in
  let collisions :=
    if (Coords.left coords + elementWidth >? viewportRight)
       || (Coords.right coords <? viewportLeft)
    then JS.bor collisions Collision.right else collisions in
  collisions.

(** ** Event registration *)

(** The two jQuery objects that handlers are attached to. *)
Inductive Target : Set := T_document | T_window.

(** The functions of this file that are passed around as callbacks. *)
Inductive Handler : Set :=
| H_getViewportDimensions
| H_trackMouse
| H_trackResize
| H_trackScroll.

(** One call of [target.on(events, handler)]. *)
Record Listener : Set := mkListener {
  on_target : Target;
  on_events : string;
  on_handler : Handler
}.

(** The session together with what jQuery holds for it: the handlers
    attached with [.on], in attachment order, and the callbacks passed to
    [$(fn)], which jQuery runs when the document is ready. *)
Record World : Set := mkWorld {
  w_session : Session;
  w_listeners : list Listener;
  w_ready : list Handler
}.

(** [target.on(events, handler)]: jQuery appends, and does not look for an
    earlier attachment of the same handler. *)
Definition jq_on (target : Target) (events : string) (handler : Handler)
    (ls : list Listener) : list Listener :=
  ls ++ [mkListener target events handler].

(** [$(fn)] *)
Definition jq_ready (fn : Handler) (q : list Handler) : list Handler :=
  q ++ [fn].

(** The event type of an [events] string: what precedes the first dot; the
    rest is the namespace. *)
Fixpoint event_type (events : string) : string :=
  match events with
  | EmptyString => EmptyString
  | String c rest =>
      if Ascii.eqb c "."%char then EmptyString else String c (event_type rest)
  end.

Definition Target_eqb (a b : Target) : bool :=
  match a, b with
  | T_document, T_document | T_window, T_window => true
  | _, _ => false
  end.

(** The handlers that jQuery runs, in order, when a native event of type
    [type] is delivered to [target]. *)
Definition handlers_for (target : Target) (type : string)
    (ls : list Listener) : list Handler :=
  map on_handler
    (filter (fun l => Target_eqb (on_target l) target
                      && String.eqb (event_type (on_events l)) type) ls).

Section Tracking.

(** The constant [EVENT_NAMESPACE] is declared outside utility.js. *)
Variable EVENT_NAMESPACE : string.

(** [initTracking()] *)
Definition initTracking (dom : Dom) (w : World) : World :=
  if negb (mouseTrackingActive (w_session w)) then
    let session := set_mouseTrackingActive true (w_session w) in
    let session := getViewportDimensions dom session in
    let ready := jq_ready H_getViewportDimensions (w_ready w) in
    let listeners :=
      jq_on T_document ("mousemove" ++ EVENT_NAMESPACE)%string H_trackMouse
        (w_listeners w) in
    let listeners :=
      jq_on T_window ("resize" ++ EVENT_NAMESPACE)%string H_trackResize listeners in
    let listeners :=
      jq_on T_window ("scroll" ++ EVENT_NAMESPACE)%string H_trackScroll listeners in
    mkWorld session listeners ready
  else w.

End Tracking.

(** ** The collision rules in the words of the specification *)

Module Rules.
Section Rules.
Variables (session : Session) (coords : Coords.t) (elementWidth elementHeight : Z).

Definition viewportTop : Z :=
  scrollTop session - Offsets.top (positionCompensation session).
Definition viewportLeft : Z :=
  scrollLeft session - Offsets.left (positionCompensation session).
Definition viewportBottom : Z := viewportTop + windowHeight session.
Definition viewportRight : Z := viewportLeft + windowWidth session.

Definition top : Prop :=
  Coords.top coords < viewportTop
  \/ Z.abs (Coords.bottom coords - windowHeight session) - elementHeight
     < viewportTop.

Definition bottom : Prop :=
  Coords.top coords + elementHeight > viewportBottom
  \/ Z.abs (Coords.bottom coords - windowHeight session) > viewportBottom.

Definition left : Prop :=
  Coords.left coords < viewportLeft
  \/ Coords.right coords + elementWidth > viewportRight.

Definition right : Prop :=
  Coords.left coords + elementWidth > viewportRight
  \/ Coords.right coords < viewportLeft.

End Rules.

(** A flag when its rule triggers, and no bit otherwise. *)
Definition flag_if (P : Prop) (flag mask : Z) : Prop :=
  (P /\ mask = flag) \/ (~ P /\ mask = 0).

End Rules.

(** The bottom offset by the formula that mirrors the one for the right
    offset, with heights for widths and top for left. *)
Definition symmetric_bottom (body : Body.t) (windowHeight : Z) : Z :=
  (Body.outerHeight_true body - Body.outerHeight body
   - (Position.top (Body.offset body) - Position.top (Body.position body)))
  + (windowHeight - Body.outerHeight_true body
     - Position.top (Body.position body)).

(** ** Auxiliary definitions and the inputs of the examples *)

(** Whether [computePositionCompensation] takes the branch of the three
    listed positions. *)
Definition positioned (body : Body.t) : bool :=
  let p := Body.css_position body in
  ((p =? "absolute") || (p =? "fixed") || (p =? "relative"))%string.

(** The browser answers of [dom], with other scroll offsets. *)
Definition with_scroll (x y : Z) (dom : Dom) : Dom :=
  mkDom (Window.mk x y (Window.width (dom_window dom))
           (Window.height (dom_window dom)))
        (dom_body dom).

(** The session and the candidate box of the "collision none" example of
    the specification. *)
Definition example_session : Session :=
  mkSession 0 0 1000 800 Offsets.zero 0 0 true.

Definition example_coords : Coords.t := Coords.mk 10 10 890 780.

(** A body with [position: relative; top: 20px] and margins of 10 pixels,
    500 pixels high and 960 wide without its margins. *)
Definition example_body : Body.t :=
  Body.mk "relative" (Position.mk 30 10) (Position.mk 20 0) 980 960 520 500.

(** Integers of magnitude at most 2^50: JavaScript's numbers add and
    subtract a few of them exactly, as [Z] does. *)
Definition integer_pixels (vs : list Z) : Prop :=
  Forall (fun v => - 2 ^ 50 <= v <= 2 ^ 50) vs.

(** A character of the class [[\w-]]: a letter, a digit, an underscore or a
    hyphen. *)
Definition id_char (c : ascii) : bool :=
  let n := nat_of_ascii c in
  ((48 <=? n) && (n <=? 57) || (65 <=? n) && (n <=? 90)
   || (97 <=? n) && (n <=? 122) || (n =? 95) || (n =? 45))%nat.

Fixpoint all_id_chars (s : string) : bool :=
  match s with
  | EmptyString => true
  | String c rest => id_char c && all_id_chars rest
  end.

(** A non-empty string of such characters.  For such a target [t] jQuery
    resolves ['#' + t] by the id alone and does not throw. *)
Definition simple_id (t : string) : bool :=
  match t with
  | EmptyString => false
  | String _ _ => all_id_chars t
  end.

(** The session with its cursor moved by [(dx, dy)]. *)
Definition shift_cursor (dx dy : Z) (s : Session) : Session :=
  set_currentY (currentY s + dy) (set_currentX (currentX s + dx) s).

(** The element with its document offset moved by [(dx, dy)] and its
    bounding rectangle, which is in viewport coordinates, by [(rx, ry)]. *)
Definition shift_element (dx dy rx ry : Z) (el : Element.t) : Element.t :=
  Element.mk
    (Position.mk (Position.top (Element.offset el) + dy)
                 (Position.left (Element.offset el) + dx))
    (Rect.mk (Rect.left (Element.boundingClientRect el) + rx)
             (Rect.top (Element.boundingClientRect el) + ry)
             (Rect.right (Element.boundingClientRect el) + rx)
             (Rect.bottom (Element.boundingClientRect el) + ry)).

(** ** getTooltipContent *)

Section TooltipContent.

(** The DOM node [element[0]] and jQuery objects, with the jQuery operations
    that [getTooltipContent] uses: [.length], [.clone(true, true)],
    [.html()] and the selector call [$(selector)], which reads the document
    at call time.  [jq_select] gives the answer of [$(selector)] where it
    answers; on a string that is no selector jQuery throws, and the
    properties of the lookup are stated for targets on which it does not
    ([simple_id]). *)
Variables (Node JQ : Type).
Variable jq_length : JQ -> nat.
Variable jq_clone : JQ -> JQ.
Variable jq_html : JQ -> string.
Variable jq_select : string -> JQ.

(** What the function returns when it returns something: a text/HTML string
    or a jQuery object; [undefined] is [None]. *)
Inductive Content : Type :=
| C_string (s : string)
| C_jquery (j : JQ).

(** The value stored for the tooltip text: a string, or a function that is
    called on the DOM node and whose result is the content.  [f n] stands for
    what the call returns this time; a stored function may look at anything
    it reaches from the node, so nothing is stated about what it would
    return for an element with other data or on another document. *)
Inductive TipText : Type :=
| TT_string (s : string)
| TT_function (f : Node -> option Content).

(** The value stored for the tooltip object: a jQuery object, or a function
    that is called on the DOM node and returns one ([f n] stands for what
    the call returns this time, as for [TT_function]). *)
Inductive TipObject : Type :=
| TO_jquery (j : JQ)
| TO_function (f : Node -> JQ).

(** An element as [getTooltipContent] sees it: its DOM node and the three
    answers of [element.data(...)] for the keys [DATA_POWERTIP],
    [DATA_POWERTIPJQ] and [DATA_POWERTIPTARGET] ([undefined] is [None]). *)
Record TipElement : Type := mkTipElement {
  node : Node;
  data_powertip : option TipText;
  data_powertipjq : option TipObject;
  data_powertiptarget : option string
}.

(** Truthiness of a string: only the empty string is falsy. *)
Definition truthy_string (s : string) : bool :=
  match s with EmptyString => false | String _ _ => true end.

(** Truthiness of the stored text: [undefined] and the empty string are
    falsy, a function is truthy. *)
Definition truthy_tipText (v : option TipText) : bool :=
  match v with
  | None => false
  | Some (TT_string s) => truthy_string s
  | Some (TT_function _) => true
  end.

(** [getTooltipContent(element)].  A stored object is truthy whatever it
    is, so the test [else if (tipObject)] is the match on [Some]; the stored
    target is tested by [truthy_string]. *)
Definition getTooltipContent (element : TipElement) : option Content :=
  let tipText := data_powertip element in
  let tipObject := data_powertipjq element in
  let tipTarget := data_powertiptarget element in
  if truthy_tipText tipText then
    match tipText with
    | Some (TT_function f) => f (node element)
    | Some (TT_string s) => Some (C_string s)
    | None => None
    end
  else
    match tipObject with
    | Some object =>
        let tipObject :=
          match object with
          | TO_function f => f (node element)
          | TO_jquery j => j
          end in
        if (0 <? jq_length tipObject)%nat
        then Some (C_jquery (jq_clone tipObject))
        else None
    | None =>
        match tipTarget with
        | Some target =>
            if truthy_string target then
              let targetElement := jq_select ("#" ++ target)%string in
              if (0 <? jq_length targetElement)%nat
              then Some (C_string (jq_html targetElement))
              else None
            else None
        | None => None
        end
    end.

End TooltipContent.

Arguments C_string {JQ} s.
Arguments C_jquery {JQ} j.
Arguments TT_string {Node JQ} s.
Arguments TT_function {Node JQ} f.
Arguments TO_jquery {Node JQ} j.
Arguments TO_function {Node JQ} f.
Arguments mkTipElement {Node JQ} _ _ _ _.
Arguments node {Node JQ} _.
Arguments data_powertip {Node JQ} _.
Arguments data_powertipjq {Node JQ} _.
Arguments data_powertiptarget {Node JQ} _.
Arguments truthy_tipText {Node JQ} v.
Arguments getTooltipContent {Node JQ} _ _ _ _ element.

(** A document for the examples: jQuery objects are the lists of the HTML
    of their elements, and only the id [tip] exists. *)
Definition example_select (selector : string) : list string :=
  if (selector =? "#tip")%string then ["<b>hint</b>"%string] else [].

Definition example_html (j : list string) : string := hd EmptyString j.

(** ** countFlags *)

(** One pass through the body of the [while] loop of [countFlags], on the
    pair of the two local variables [(value, count)].  The subtraction
    [value - 1] is that of the source for integers of magnitude below 2^53,
    where JavaScript's numbers subtract exactly; every value that the loop
    itself produces is a 32-bit integer. *)
Definition countFlags_body (st : Z * Z) : Z * Z :=
  let '(value, count) := st in
  (JS.band value (value - 1), count + 1).

(** Number of set bits of a nonnegative integer. *)
Fixpoint popcount_pos (p : positive) : nat :=
  match p with
  | xH => 1
  | xO q => popcount_pos q
  | xI q => S (popcount_pos q)
  end.

Definition popcount (v : Z) : nat :=
  match v with
  | Zpos p => popcount_pos p
  | _ => 0
  end.

(** The variant of the loop: the number of set bits of the unsigned 32-bit
    image of [value] once [value] is a 32-bit integer, and 33 before that (a
    first pass brings any integer into the 32-bit range). *)
Definition countFlags_variant (value : Z) : nat :=
  if JS.in_int32b value then popcount (value mod 2 ^ 32) else 33.

(** *** Termination of the loop

    The facts on 32-bit images that the definition of [countFlags_loop]
    rests on: a pass through the body leaves a 32-bit integer with one set
    bit less. *)

Lemma to_int32_range v : JS.in_int32 (JS.to_int32 v).
Proof.
  unfold JS.in_int32, JS.to_int32.
  pose proof (Z.mod_pos_bound (v + 2 ^ 31) (2 ^ 32) ltac:(lia)). lia.
Qed.

Lemma to_int32_id v : JS.in_int32 v -> JS.to_int32 v = v.
Proof.
  unfold JS.in_int32, JS.to_int32. intros H.
  rewrite Z.mod_small; lia.
Qed.

Lemma to_int32_mod v : JS.to_int32 v mod 2 ^ 32 = v mod 2 ^ 32.
Proof.
  unfold JS.to_int32.
  rewrite Zminus_mod, Z.mod_mod by lia.
  rewrite <- Zminus_mod. f_equal. lia.
Qed.

Lemma in_int32b_spec v : JS.in_int32b v = true <-> JS.in_int32 v.
Proof. unfold JS.in_int32b, JS.in_int32. lia. Qed.

Lemma land_mod_pow2 a b n :
  0 <= n -> Z.land a b mod 2 ^ n = Z.land (a mod 2 ^ n) (b mod 2 ^ n).
Proof.
  intros Hn. rewrite <- !Z.land_ones by assumption.
  apply Z.bits_inj'. intros i Hi. rewrite !Z.land_spec.
  destruct (Z.testbit a i), (Z.testbit b i), (Z.testbit (Z.ones n) i); reflexivity.
Qed.

Lemma in_int32_shiftr v :
  JS.in_int32 v <-> Z.shiftr v 31 = 0 \/ Z.shiftr v 31 = -1.
Proof.
  unfold JS.in_int32. rewrite Z.shiftr_div_pow2 by lia.
  change (2 ^ 31) with 2147483648.
  split; intros H; Z.div_mod_to_equations; lia.
Qed.

Lemma band_range a b : JS.in_int32 (JS.band a b).
Proof.
  unfold JS.band. apply in_int32_shiftr. rewrite Z.shiftr_land.
  destruct (proj1 (in_int32_shiftr _) (to_int32_range a)) as [-> | ->];
    destruct (proj1 (in_int32_shiftr _) (to_int32_range b)) as [-> | ->];
    auto.
Qed.

Lemma bor_range a b : JS.in_int32 (JS.bor a b).
Proof.
  unfold JS.bor. apply in_int32_shiftr. rewrite Z.shiftr_lor.
  destruct (proj1 (in_int32_shiftr _) (to_int32_range a)) as [-> | ->];
    destruct (proj1 (in_int32_shiftr _) (to_int32_range b)) as [-> | ->];
    auto.
Qed.

(** The unsigned image of [a & b] is the bitwise and of the unsigned images. *)
Lemma band_mod a b :
  JS.band a b mod 2 ^ 32 = Z.land (a mod 2 ^ 32) (b mod 2 ^ 32).
Proof.
  unfold JS.band. rewrite land_mod_pow2 by lia.
  now rewrite !to_int32_mod.
Qed.

Lemma land_le_r a b : 0 <= b -> Z.land a b <= b.
Proof.
  intros Hb. apply (Z.ldiff_le (Z.land a b) b Hb).
  apply Z.bits_inj'. intros i Hi.
  rewrite Z.ldiff_spec, Z.land_spec, Z.bits_0.
  destruct (Z.testbit a i), (Z.testbit b i); reflexivity.
Qed.

Lemma land_pred_lt u : 0 < u -> 0 <= Z.land u (u - 1) < u.
Proof.
  intros Hu. split; [apply Z.land_nonneg; lia |].
  pose proof (land_le_r u (u - 1)). lia.
Qed.

Lemma popcount_double a : popcount (2 * a) = popcount a.
Proof. destruct a; reflexivity. Qed.

Lemma popcount_succ_double a : 0 <= a -> popcount (2 * a + 1) = S (popcount a).
Proof. destruct a; intros H; try reflexivity. lia. Qed.

Lemma land_double_l a b : Z.land (2 * a) (2 * b + 1) = 2 * Z.land a b.
Proof.
  apply Z.bits_inj'. intros i Hi. rewrite Z.land_spec.
  destruct (Z.eq_dec i 0) as [-> | Hne].
  - now rewrite !Z.testbit_even_0.
  - replace i with (Z.succ (i - 1)) by lia.
    rewrite !Z.testbit_even_succ, Z.testbit_odd_succ, Z.land_spec by lia.
    reflexivity.
Qed.

Lemma land_double_r a b : Z.land (2 * a + 1) (2 * b) = 2 * Z.land a b.
Proof.
  rewrite Z.land_comm, land_double_l. now rewrite Z.land_comm.
Qed.

(** Clearing the lowest set bit removes exactly one set bit. *)
Lemma popcount_land_pred u :
  0 < u -> S (popcount (Z.land u (u - 1))) = popcount u.
Proof.
  destruct u as [| p | p]; try lia. intros _.
  induction p as [q IH | q IH |].
  - replace (Z.pos q~1 - 1) with (2 * Z.pos q) by lia.
    change (Z.pos q~1) with (2 * Z.pos q + 1).
    rewrite land_double_r, Z.land_diag, popcount_double, popcount_succ_double by lia.
    reflexivity.
  - replace (Z.pos q~0 - 1) with (2 * (Z.pos q - 1) + 1) by lia.
    change (Z.pos q~0) with (2 * Z.pos q).
    rewrite land_double_l, !popcount_double. exact IH.
  - reflexivity.
Qed.

Lemma popcount_log2 p : Z.of_nat (popcount_pos p) <= Z.log2 (Z.pos p) + 1.
Proof.
  induction p as [q IH | q IH |]; cbn [popcount_pos].
  - change (Z.pos q~1) with (2 * Z.pos q + 1).
    rewrite Z.log2_succ_double by lia. lia.
  - change (Z.pos q~0) with (2 * Z.pos q).
    rewrite Z.log2_double by lia. lia.
  - simpl. lia.
Qed.

Lemma popcount_bound u n : 0 <= n -> 0 <= u < 2 ^ n -> Z.of_nat (popcount u) <= n.
Proof.
  intros Hn [H0 Hu]. destruct u as [| p | p]; simpl; try lia.
  pose proof (popcount_log2 p).
  pose proof (proj1 (Z.log2_lt_pow2 (Z.pos p) n ltac:(lia)) Hu). lia.
Qed.

Lemma mod32_nonzero v : JS.in_int32 v -> v <> 0 -> 0 < v mod 2 ^ 32.
Proof.
  unfold JS.in_int32. intros E Hv.
  pose proof (Z.mod_pos_bound v (2 ^ 32) ltac:(lia)) as Hu.
  assert (Hne : v mod 2 ^ 32 <> 0); [| lia].
  intros H0. apply Z.mod_divide in H0; [| lia].
  destruct H0 as [k Hk]. change (2 ^ 31) with 2147483648 in E.
  change (2 ^ 32) with 4294967296 in Hk. lia.
Qed.

Lemma mod32_pred v :
  0 < v mod 2 ^ 32 -> (v - 1) mod 2 ^ 32 = v mod 2 ^ 32 - 1.
Proof.
  intros Hu.
  pose proof (Z.mod_pos_bound v (2 ^ 32) ltac:(lia)).
  rewrite Zminus_mod. rewrite (Z.mod_small 1) by lia.
  apply Z.mod_small. lia.
Qed.

(** On a nonzero 32-bit integer, one pass of the loop body clears the lowest
    set bit of the unsigned image. *)
Lemma band_pred_mod v :
  JS.in_int32 v -> v <> 0 ->
  JS.band v (v - 1) mod 2 ^ 32 = Z.land (v mod 2 ^ 32) (v mod 2 ^ 32 - 1).
Proof.
  intros E Hv. rewrite band_mod, mod32_pred; [reflexivity |].
  now apply mod32_nonzero.
Qed.

Lemma countFlags_variant_decreases value :
  value <> 0 ->
  (countFlags_variant (JS.band value (value - 1)) < countFlags_variant value)%nat.
Proof.
  intros Hv. unfold countFlags_variant.
  rewrite (proj2 (in_int32b_spec _) (band_range value (value - 1))).
  destruct (JS.in_int32b value) eqn:E.
  - apply in_int32b_spec in E.
    rewrite band_pred_mod by assumption.
    rewrite <- (popcount_land_pred (value mod 2 ^ 32)) by now apply mod32_nonzero.
    lia.
  - pose proof (popcount_bound (JS.band value (value - 1) mod 2 ^ 32) 32
                  ltac:(lia) ltac:(apply Z.mod_pos_bound; lia)).
    lia.
Qed.

(** The loop of [countFlags]: [while (value) { value &= value - 1; count++; }]
    followed by [return count]; it is the loop of the source on integers of
    magnitude below 2^53 (see [countFlags_body]). *)
Equations? countFlags_loop (value count : Z) : Z
  by wf (countFlags_variant value) lt :=
  countFlags_loop value count with Z.eq_dec value 0 := {
    | left _ := count;
    | right _ := countFlags_loop (JS.band value (value - 1)) (count + 1) }.
Proof. now apply countFlags_variant_decreases. Qed.

(** [countFlags(value)] *)
Definition countFlags (value : Z) : Z := countFlags_loop value 0.

(** Number of set bits of the 32-bit image of [value]. *)
Definition popcount32 (value : Z) : nat := popcount (value mod 2 ^ 32).

(** The local variables [(value, count)] after [k] passes through the loop
    body, started as [countFlags(value)] starts them. *)
Definition countFlags_trace (k : nat) (value : Z) : Z * Z :=
  Nat.iter k countFlags_body (value, 0).

(** The value of the lowest set bit of a positive integer. *)
Fixpoint lowest_set_bit_pos (p : positive) : positive :=
  match p with
  | xO q => xO (lowest_set_bit_pos q)
  | _ => xH
  end.

Definition lowest_set_bit (v : Z) : Z :=
  match v with
  | Zpos p => Zpos (lowest_set_bit_pos p)
  | _ => 0
  end.

(** * Properties *)

(** ** countFlags: the loop and its iterations *)

Lemma countFlags_loop_step value count :
  countFlags_loop value count =
  if JS.truthy value
  then countFlags_loop (fst (countFlags_body (value, count)))
                       (snd (countFlags_body (value, count)))
  else count.
Proof.
  rewrite (countFlags_loop_equation_1 value count).
  unfold JS.truthy. cbn [countFlags_body fst snd].
  destruct (Z.eq_dec value 0) as [-> | Hne].
  - reflexivity.
  - rewrite (proj2 (Z.eqb_neq value 0) Hne). reflexivity.
Qed.

Lemma popcount_zero u : 0 <= u -> popcount u = 0%nat -> u = 0.
Proof.
  destruct u as [| p | p]; intros Hu H; try lia.
  exfalso. simpl in H. induction p; simpl in H; try discriminate; auto.
Qed.

Lemma popcount32_small v : 0 <= v < 2 ^ 32 -> popcount32 v = popcount v.
Proof. intros H. unfold popcount32. now rewrite Z.mod_small. Qed.

Lemma popcount32_zero v : JS.in_int32 v -> popcount32 v = 0%nat -> v = 0.
Proof.
  intros Hr H. destruct (Z.eq_dec v 0) as [| Hne]; [assumption |].
  pose proof (mod32_nonzero v Hr Hne) as Hpos.
  apply popcount_zero in H; lia.
Qed.

(** One pass of the loop body removes exactly one set bit of the 32-bit
    image, whenever that image is not zero. *)
Lemma countFlags_body_popcount32 value count :
  popcount32 value <> 0%nat ->
  S (popcount32 (fst (countFlags_body (value, count)))) = popcount32 value.
Proof.
  intros Hp. cbn [countFlags_body fst]. unfold popcount32 in *.
  pose proof (Z.mod_pos_bound value (2 ^ 32) ltac:(lia)) as Hu.
  assert (Hpos : 0 < value mod 2 ^ 32).
  { destruct (Z.eq_dec (value mod 2 ^ 32) 0) as [E | ?]; [| lia].
    rewrite E in Hp. now elim Hp. }
  rewrite band_mod, mod32_pred by assumption.
  now apply popcount_land_pred.
Qed.

Lemma countFlags_trace_succ k value :
  countFlags_trace (S k) value = countFlags_body (countFlags_trace k value).
Proof. reflexivity. Qed.

Lemma countFlags_trace_count k value :
  snd (countFlags_trace k value) = Z.of_nat k.
Proof.
  induction k as [| k IH]; [reflexivity |].
  rewrite countFlags_trace_succ.
  destruct (countFlags_trace k value) as [x c]. cbn in *. lia.
Qed.

Lemma countFlags_trace_popcount32 k value :
  (k <= popcount32 value)%nat ->
  (popcount32 (fst (countFlags_trace k value)) + k = popcount32 value)%nat.
Proof.
  induction k as [| k IH]; intros Hk; [cbn; lia |].
  rewrite countFlags_trace_succ.
  specialize (IH ltac:(lia)).
  destruct (countFlags_trace k value) as [x c]. cbn [fst] in IH.
  pose proof (countFlags_body_popcount32 x c ltac:(lia)). lia.
Qed.

Lemma countFlags_trace_int32 k value :
  JS.in_int32 value \/ (1 <= k)%nat ->
  JS.in_int32 (fst (countFlags_trace k value)).
Proof.
  destruct k as [| k]; intros [H | H]; try assumption; try lia;
    rewrite countFlags_trace_succ;
    destruct (countFlags_trace k value) as [x c]; apply band_range.
Qed.

(** While the guard holds, the loop goes on from the traced state. *)
Lemma countFlags_loop_trace k value :
  (forall j, (j < k)%nat -> fst (countFlags_trace j value) <> 0) ->
  countFlags value =
  countFlags_loop (fst (countFlags_trace k value)) (snd (countFlags_trace k value)).
Proof.
  induction k as [| k IH]; intros Hg; [reflexivity |].
  rewrite IH by (intros j Hj; apply Hg; lia).
  rewrite countFlags_loop_step. unfold JS.truthy.
  specialize (Hg k ltac:(lia)). apply Z.eqb_neq in Hg. rewrite Hg. cbn [negb].
  rewrite countFlags_trace_succ.
  now destruct (countFlags_trace k value).
Qed.

Lemma countFlags_trace_guard k value :
  (k < popcount32 value)%nat -> fst (countFlags_trace k value) <> 0.
Proof.
  intros Hk E.
  pose proof (countFlags_trace_popcount32 k value ltac:(lia)) as H.
  rewrite E in H. cbn in H. lia.
Qed.

(** The result of [countFlags] on a 32-bit integer, or on any integer whose
    32-bit image is not zero: the loop exits after as many passes as that
    image has set bits. *)
Lemma countFlags_int32 value :
  JS.in_int32 value \/ popcount32 value <> 0%nat ->
  fst (countFlags_trace (popcount32 value) value) = 0 /\
  countFlags value = Z.of_nat (popcount32 value).
Proof.
  intros Hv.
  assert (Hz : fst (countFlags_trace (popcount32 value) value) = 0).
  { apply popcount32_zero.
    - apply countFlags_trace_int32. destruct Hv; [now left | right; lia].
    - pose proof (countFlags_trace_popcount32 (popcount32 value) value
                    ltac:(lia)). lia. }
  split; [exact Hz |].
  rewrite (countFlags_loop_trace (popcount32 value)).
  - rewrite countFlags_loop_step, Hz. cbn. apply countFlags_trace_count.
  - intros j Hj. now apply countFlags_trace_guard.
Qed.

(** [v & (v - 1)] is [v] without its lowest set bit. *)
Lemma land_pred_lowest v : 0 < v -> Z.land v (v - 1) = v - lowest_set_bit v.
Proof.
  destruct v as [| p | p]; try lia. intros _.
  induction p as [q IH | q IH |].
  - replace (Z.pos q~1 - 1) with (2 * Z.pos q) by lia.
    change (Z.pos q~1) with (2 * Z.pos q + 1) at 1.
    rewrite land_double_r, Z.land_diag. cbn [lowest_set_bit lowest_set_bit_pos]. lia.
  - replace (Z.pos q~0 - 1) with (2 * (Z.pos q - 1) + 1) by lia.
    change (Z.pos q~0) with (2 * Z.pos q) at 1.
    rewrite land_double_l, IH. cbn [lowest_set_bit lowest_set_bit_pos]. lia.
  - reflexivity.
Qed.

(** Below 2^31 the conversion to 32 bits changes neither operand. *)
Lemma band_pred_small v :
  0 < v < 2 ^ 31 -> JS.band v (v - 1) = Z.land v (v - 1).
Proof.
  intros Hv. unfold JS.band.
  rewrite !to_int32_id; [reflexivity | |]; unfold JS.in_int32; lia.
Qed.

Lemma countFlags_trace_small k v :
  0 <= v < 2 ^ 31 -> 0 <= fst (countFlags_trace k v) <= v.
Proof.
  intros Hv. induction k as [| k IH]; [cbn; lia |].
  rewrite countFlags_trace_succ.
  destruct (countFlags_trace k v) as [x c]. cbn [fst countFlags_body] in *.
  destruct (Z.eq_dec x 0) as [-> | Hx]; [cbn; lia |].
  rewrite band_pred_small by lia.
  pose proof (land_pred_lt x ltac:(lia)). lia.
Qed.

(** C6. For every integer [v] in 0..15, [countFlags v] is the number of set
    bits of [v] (the number of the bit positions 0..3 at which [v] has a one).
    The loop gets there by clearing the lowest set bit: as long as fewer
    passes than set bits were made the guard holds and the next pass
    subtracts the lowest set bit from [value]; after as many passes as [v]
    has set bits the guard fails, and the count returned is the number of
    passes made. *)
Theorem countFlags_counts_set_bits (v : Z) (Hv : 0 <= v <= 15) :
  countFlags v = Z.of_nat (popcount v)
  /\ Z.of_nat (popcount v) =
     Z.b2z (Z.testbit v 0) + Z.b2z (Z.testbit v 1)
     + Z.b2z (Z.testbit v 2) + Z.b2z (Z.testbit v 3)
  /\ (forall k, (k < popcount v)%nat ->
        JS.truthy (fst (countFlags_trace k v)) = true
        /\ fst (countFlags_trace (S k) v) =
           fst (countFlags_trace k v)
           - lowest_set_bit (fst (countFlags_trace k v)))
  /\ JS.truthy (fst (countFlags_trace (popcount v) v)) = false
  /\ countFlags v = snd (countFlags_trace (popcount v) v).
Proof.
  assert (H32 : 0 <= v < 2 ^ 32) by lia.
  assert (H31 : 0 <= v < 2 ^ 31) by lia.
  pose proof (popcount32_small v H32) as Hp.
  destruct (countFlags_int32 v) as [Hexit Hres].
  { left. unfold JS.in_int32. lia. }
  rewrite Hp in Hexit, Hres.
  split; [exact Hres |]. split.
  { assert (Hcases : v = 0 \/ v = 1 \/ v = 2 \/ v = 3 \/ v = 4 \/ v = 5
                     \/ v = 6 \/ v = 7 \/ v = 8 \/ v = 9 \/ v = 10 \/ v = 11
                     \/ v = 12 \/ v = 13 \/ v = 14 \/ v = 15) by lia.
    repeat (destruct Hcases as [-> | Hcases]; [reflexivity |]).
    subst v. reflexivity. }
  split.
  { intros k Hk.
    assert (Hg : fst (countFlags_trace k v) <> 0).
    { apply countFlags_trace_guard. now rewrite Hp. }
    split.
    - unfold JS.truthy. now rewrite (proj2 (Z.eqb_neq _ _) Hg).
    - pose proof (countFlags_trace_small k v H31) as Hs.
      rewrite countFlags_trace_succ.
      destruct (countFlags_trace k v) as [x c]. cbn [fst countFlags_body] in *.
      rewrite band_pred_small by lia. apply land_pred_lowest. lia. }
  split.
  - now rewrite Hexit.
  - rewrite countFlags_trace_count. exact Hres.
Qed.

Lemma countFlags_counts_set_bits_witness :
  0 <= 5 <= 15 /\ countFlags 5 = 2 /\ countFlags 0 = 0 /\ countFlags 15 = 4.
Proof.
  split; [lia |].
  split; [exact (proj1 (countFlags_counts_set_bits 5 ltac:(lia))) |].
  split; [exact (proj1 (countFlags_counts_set_bits 0 ltac:(lia))) |].
  exact (proj1 (countFlags_counts_set_bits 15 ltac:(lia))).
Defined.

(** The loop as modelled exits on every integer: after as many passes as
    the 32-bit image of [value] has set bits, or after one pass when [value]
    is not zero and its 32-bit image is.  It speaks of the source for
    integers of magnitude below 2^53 (see [countFlags_body]). *)
Lemma countFlags_exit value :
  exists n : nat,
    (n <= 32)%nat
    /\ (forall k, (k < n)%nat -> fst (countFlags_trace k value) <> 0)
    /\ fst (countFlags_trace n value) = 0
    /\ countFlags value = Z.of_nat n
    /\ (JS.in_int32 value \/ popcount32 value <> 0%nat -> n = popcount32 value).
Proof.
  assert (Hb : (popcount32 value <= 32)%nat).
  { pose proof (popcount_bound (value mod 2 ^ 32) 32 ltac:(lia)
                  ltac:(apply Z.mod_pos_bound; lia)).
    unfold popcount32. lia. }
  destruct (JS.in_int32b value) eqn:Er;
    [| destruct (Nat.eq_dec (popcount32 value) 0) as [Ep | Ep]].
  - apply in_int32b_spec in Er.
    destruct (countFlags_int32 value (or_introl Er)) as [Hexit Hres].
    exists (popcount32 value). repeat split; try assumption.
    intros k Hk. now apply countFlags_trace_guard.
  - assert (Hn : ~ JS.in_int32 value).
    { intros H. apply in_int32b_spec in H. congruence. }
    assert (Hne : value <> 0).
    { intros ->. apply Hn. unfold JS.in_int32. lia. }
    assert (Hz : fst (countFlags_trace 1 value) = 0).
    { apply popcount32_zero; [apply countFlags_trace_int32; right; lia |].
      cbn [countFlags_trace Nat.iter nat_rect countFlags_body fst].
      unfold popcount32 in *. rewrite band_mod.
      apply popcount_zero in Ep; [| apply Z.mod_pos_bound; lia].
      rewrite Ep. reflexivity. }
    exists 1%nat. split; [lia |]. split.
    { intros k Hk. replace k with 0%nat by lia. exact Hne. }
    split; [exact Hz |]. split.
    + rewrite (countFlags_loop_trace 1).
      * rewrite countFlags_loop_step, Hz. reflexivity.
      * intros j Hj. replace j with 0%nat by lia. exact Hne.
    + intros [H | H]; contradiction.
  - destruct (countFlags_int32 value (or_intror Ep)) as [Hexit Hres].
    exists (popcount32 value). repeat split; try assumption.
    intros k Hk. now apply countFlags_trace_guard.
Qed.

(** C10, as amended.  On every nonnegative integer [v] below 2^53 (the
    integers on which [value - 1] is exact in the source) the loop of
    [countFlags] exits: there is a number [n] of passes, at most 32, before
    which the guard holds and after which it fails, and [countFlags v]
    returns [n].  When moreover [v < 2^32], [n] is the number of set bits of
    [v], the 32-bit image that the loop works on has the set bits of [v], and
    every pass made strictly decreases the number of set bits. *)
Theorem countFlags_terminates (v : Z) (Hv : 0 <= v < 2 ^ 53) :
  exists n : nat,
    (n <= 32)%nat
    /\ (forall k, (k < n)%nat -> fst (countFlags_trace k v) <> 0)
    /\ fst (countFlags_trace n v) = 0
    /\ countFlags v = Z.of_nat n
    /\ (v < 2 ^ 32 ->
        n = popcount v
        /\ popcount32 v = popcount v
        /\ forall k, (k < n)%nat ->
             (popcount32 (fst (countFlags_trace (S k) v))
              < popcount32 (fst (countFlags_trace k v)))%nat).
Proof.
  destruct (countFlags_exit v) as (n & Hn & Hguard & Hexit & Hres & Hpop).
  exists n. repeat (split; [assumption |]).
  intros Hlt.
  pose proof (popcount32_small v (conj (proj1 Hv) Hlt)) as Hp.
  assert (En : n = popcount32 v).
  { destruct (Z.eq_dec v 0) as [-> | Hne].
    - apply Hpop. left. unfold JS.in_int32. lia.
    - apply Hpop. right. rewrite Hp. intros H0.
      apply popcount_zero in H0; lia. }
  split; [congruence |]. split; [exact Hp |].
  intros k Hk.
  pose proof (countFlags_trace_popcount32 k v ltac:(lia)).
  pose proof (countFlags_trace_popcount32 (S k) v ltac:(lia)).
  lia.
Qed.

Lemma countFlags_terminates_witness :
  0 <= 4294967295 < 2 ^ 53
  /\ exists n : nat, countFlags 4294967295 = Z.of_nat n /\ n = 32%nat.
Proof.
  split; [lia |].
  destruct (countFlags_terminates 4294967295 ltac:(lia))
    as (n & _ & _ & _ & Hres & Hsmall).
  exists n. split; [exact Hres |].
  destruct (Hsmall ltac:(lia)) as (Hn & _). exact Hn.
Defined.

(** C10, as first stated, fails above 32 bits: 2^32 + 1 has two set bits,
    and the loop clears both in its first pass, because [&] only sees the
    lower 32 bits of its operands. *)
Lemma countFlags_beyond_32_bits :
  0 <= 4294967297
  /\ popcount 4294967297 = 2%nat
  /\ countFlags_trace 1 4294967297 = (0, 1)
  /\ countFlags 4294967297 = 1
  /\ countFlags 4294967297 <> Z.of_nat (popcount 4294967297).
Proof.
  split; [lia |]. split; [reflexivity |]. split; [reflexivity |].
  split; [reflexivity |]. vm_compute. discriminate.
Qed.

(** ** getViewportCollisions *)

(** The four tests of [getViewportCollisions] decide the four rules, and the
    result is put together from the flags of the tests that succeed. *)
Lemma getViewportCollisions_cases s c w h :
  exists bt bb bl br : bool,
    (bt = true <-> Rules.top s c h)
    /\ (bb = true <-> Rules.bottom s c h)
    /\ (bl = true <-> Rules.left s c w)
    /\ (br = true <-> Rules.right s c w)
    /\ getViewportCollisions s c w h =
       Z.lor (Z.lor (Z.lor (if bt then Collision.top else 0)
                           (if bb then Collision.bottom else 0))
                    (if bl then Collision.left else 0))
             (if br then Collision.right else 0).
Proof.
  unfold getViewportCollisions, Rules.top, Rules.bottom, Rules.left,
    Rules.right, Rules.viewportBottom, Rules.viewportRight, Rules.viewportTop,
    Rules.viewportLeft, JS.Math_abs.
  set (vt := scrollTop s - Offsets.top (positionCompensation s)).
  set (vl := scrollLeft s - Offsets.left (positionCompensation s)).
  set (ab := Z.abs (Coords.bottom c - windowHeight s)).
  match goal with
  | |- context [if ?t then JS.bor Collision.none Collision.top else _] =>
      set (bt := t)
  end.
  set (bb := (Coords.top c + h >? vt + windowHeight s)
             || (ab >? vt + windowHeight s)).
  set (bl := (Coords.left c <? vl)
             || (Coords.right c + w >? vl + windowWidth s)).
  set (br := (Coords.left c + w >? vl + windowWidth s)
             || (Coords.right c <? vl)).
  exists bt, bb, bl, br.
  split; [subst bt; lia |]. split; [subst bb; lia |].
  split; [subst bl; lia |]. split; [subst br; lia |].
  destruct bt, bb, bl, br; reflexivity.
Qed.

Lemma testbit_above r n i :
  0 <= n -> 0 <= r < 2 ^ n -> n <= i -> Z.testbit r i = false.
Proof.
  intros Hn Hr Hi. rewrite <- (Z.mod_small r (2 ^ n)) by assumption.
  apply Z.mod_pow2_bits_high. lia.
Qed.

(** C1. For every session state, every set of candidate coordinates and
    every element size, [getViewportCollisions] returns the bitwise or of
    four masks, one for each of top, bottom, left and right, where the mask
    of an edge is the flag of that edge if its rule holds and zero if it
    does not; the rules are those of the specification, on viewportTop =
    scrollTop - compensation.top, viewportLeft = scrollLeft -
    compensation.left, viewportBottom = viewportTop + windowHeight and
    viewportRight = viewportLeft + windowWidth.  Hence each flag is in the
    result if and only if its rule holds. *)
Theorem getViewportCollisions_or_of_flags
    (s : Session) (c : Coords.t) (w h : Z) :
  (exists t b l r : Z,
      Rules.flag_if (Rules.top s c h) Collision.top t
      /\ Rules.flag_if (Rules.bottom s c h) Collision.bottom b
      /\ Rules.flag_if (Rules.left s c w) Collision.left l
      /\ Rules.flag_if (Rules.right s c w) Collision.right r
      /\ getViewportCollisions s c w h = Z.lor (Z.lor (Z.lor t b) l) r)
  /\ (Z.land (getViewportCollisions s c w h) Collision.top = Collision.top
      <-> Rules.top s c h)
  /\ (Z.land (getViewportCollisions s c w h) Collision.bottom = Collision.bottom
      <-> Rules.bottom s c h)
  /\ (Z.land (getViewportCollisions s c w h) Collision.left = Collision.left
      <-> Rules.left s c w)
  /\ (Z.land (getViewportCollisions s c w h) Collision.right = Collision.right
      <-> Rules.right s c w).
Proof.
  destruct (getViewportCollisions_cases s c w h)
    as (bt & bb & bl & br & Ht & Hb & Hl & Hr & ->).
  split.
  - exists (if bt then Collision.top else 0), (if bb then Collision.bottom else 0),
      (if bl then Collision.left else 0), (if br then Collision.right else 0).
    unfold Rules.flag_if.
    repeat split; try reflexivity.
    + destruct bt; [left | right]; split; try reflexivity; try tauto.
      intros H. apply Ht in H. discriminate.
    + destruct bb; [left | right]; split; try reflexivity; try tauto.
      intros H. apply Hb in H. discriminate.
    + destruct bl; [left | right]; split; try reflexivity; try tauto.
      intros H. apply Hl in H. discriminate.
    + destruct br; [left | right]; split; try reflexivity; try tauto.
      intros H. apply Hr in H. discriminate.
  - rewrite <- Ht, <- Hb, <- Hl, <- Hr.
    destruct bt, bb, bl, br; vm_compute; intuition discriminate.
Qed.

(** C8. The mask returned by [getViewportCollisions] lies in 0..15, all its
    set bits are at the positions of top=1, bottom=2, left=4 and right=8,
    and it is none=0 exactly when none of the four rules holds, which is
    also exactly when it shares no bit with any of the four flags. *)
Theorem getViewportCollisions_mask (s : Session) (c : Coords.t) (w h : Z) :
  0 <= getViewportCollisions s c w h <= 15
  /\ (forall i, Z.testbit (getViewportCollisions s c w h) i = true ->
        i = 0 \/ i = 1 \/ i = 2 \/ i = 3)
  /\ Z.land (getViewportCollisions s c w h)
       (Z.lor (Z.lor (Z.lor Collision.top Collision.bottom) Collision.left)
          Collision.right)
     = getViewportCollisions s c w h
  /\ (getViewportCollisions s c w h = Collision.none
      <-> ~ Rules.top s c h /\ ~ Rules.bottom s c h
          /\ ~ Rules.left s c w /\ ~ Rules.right s c w)
  /\ (getViewportCollisions s c w h = Collision.none
      <-> Z.land (getViewportCollisions s c w h) Collision.top = 0
          /\ Z.land (getViewportCollisions s c w h) Collision.bottom = 0
          /\ Z.land (getViewportCollisions s c w h) Collision.left = 0
          /\ Z.land (getViewportCollisions s c w h) Collision.right = 0).
Proof.
  destruct (getViewportCollisions_cases s c w h)
    as (bt & bb & bl & br & Ht & Hb & Hl & Hr & E).
  assert (Hrange : 0 <= getViewportCollisions s c w h <= 15).
  { rewrite E. destruct bt, bb, bl, br; vm_compute; split; discriminate. }
  split; [exact Hrange |]. split.
  { intros i Hi.
    destruct (Z.lt_ge_cases i 0) as [Hneg | Hpos].
    - rewrite Z.testbit_neg_r in Hi by assumption. discriminate.
    - destruct (Z.lt_ge_cases i 4) as [Hlow | Hhigh]; [lia |].
      rewrite (testbit_above _ 4 i) in Hi; [discriminate | lia | | lia].
      change (2 ^ 4) with 16. lia. }
  rewrite E. rewrite <- Ht, <- Hb, <- Hl, <- Hr.
  destruct bt, bb, bl, br; vm_compute; intuition discriminate.
Qed.

(** C2, as amended.  With zero scroll, a window of 1000 by 800 and zero
    compensation, the box [{top: 10, left: 10, right: 890, bottom: 780}] of
    size 100 by 100 yields the mask top (1): |780 - 800| - 100 = -80 is
    below viewportTop = 0, and no other rule holds. *)
Theorem getViewportCollisions_example_top :
  getViewportCollisions example_session example_coords 100 100 = Collision.top
  /\ Rules.viewportTop example_session = 0
  /\ Rules.viewportLeft example_session = 0
  /\ Z.abs (Coords.bottom example_coords - windowHeight example_session) - 100
     < Rules.viewportTop example_session.
Proof. repeat split. Qed.

(** C2, as first stated, fails: the mask for that box is not none. *)
Lemma getViewportCollisions_example_not_none :
  getViewportCollisions example_session example_coords 100 100
  <> Collision.none.
Proof. vm_compute. discriminate. Qed.

(** ** computePositionCompensation *)

(** The right offset follows its formula. *)
Lemma computePositionCompensation_right body ww wh :
  positioned body = true ->
  Offsets.right (computePositionCompensation body ww wh) =
  (Body.outerWidth_true body - Body.outerWidth body
   - (Position.left (Body.offset body) - Position.left (Body.position body)))
  + (ww - Body.outerWidth_true body - Position.left (Body.position body)).
Proof.
  unfold positioned, computePositionCompensation. intros ->. reflexivity.
Qed.

(** The bottom offset is short of the mirrored formula by the [top] of
    [position()]: the source subtracts [offsets.top] where the formula for
    the right offset subtracts [offsets.left - bodyPositionPx.left]. *)
Lemma computePositionCompensation_bottom body ww wh :
  positioned body = true ->
  Offsets.bottom (computePositionCompensation body ww wh) =
  symmetric_bottom body wh - Position.top (Body.position body).
Proof.
  unfold positioned, computePositionCompensation, symmetric_bottom.
  intros ->. cbn. lia.
Qed.

Lemma computePositionCompensation_static body ww wh :
  positioned body = false ->
  computePositionCompensation body ww wh = Offsets.zero.
Proof.
  unfold positioned, computePositionCompensation. intros ->. reflexivity.
Qed.

(** C3.  On [example_body] in a window of 1000 by 800 the source returns the
    bottom offset 250, where the formula that mirrors the right offset (bottom
    margin 10 plus bottom position 260) gives 270; the right offset of the
    same call does follow its formula. *)
Theorem computePositionCompensation_bottom_example :
  positioned example_body = true
  /\ Offsets.bottom (computePositionCompensation example_body 1000 800) = 250
  /\ symmetric_bottom example_body 800 = 270
  /\ Offsets.right (computePositionCompensation example_body 1000 800)
     = (980 - 960 - (10 - 0)) + (1000 - 980 - 0).
Proof. repeat split. Qed.

(** ** trackScroll, trackResize, trackMouse *)

(** [trackScroll] in one step: the record it leaves behind. *)
Lemma trackScroll_eq dom s :
  trackScroll dom s =
  mkSession (Window.scrollLeft (dom_window dom))
    (Window.scrollTop (dom_window dom))
    (windowWidth s) (windowHeight s) (positionCompensation s)
    (currentX s + (Window.scrollLeft (dom_window dom) - scrollLeft s))
    (currentY s + (Window.scrollTop (dom_window dom) - scrollTop s))
    (mouseTrackingActive s).
Proof.
  destruct s as [sl st ww wh pc cx cy act]. unfold trackScroll. cbn.
  destruct (Z.eqb_spec (Window.scrollLeft (dom_window dom)) sl) as [Ex | Ex];
    cbn;
    destruct (Z.eqb_spec (Window.scrollTop (dom_window dom)) st) as [Ey | Ey];
    cbn; unfold set_scrollTop, set_scrollLeft, set_currentX, set_currentY;
    cbn; f_equal; lia.
Qed.

(** C4.  After [trackScroll], each cached scroll offset is the one newly
    read, and the cursor has moved, on each axis whose offset changed, by the
    new offset minus the cached one, and not at all on an axis whose offset
    did not change.  In particular, when the cached scrollTop is 0 and 50 is
    read, the cursor y grows by exactly 50, and the cursor x keeps its value
    when the scrollLeft read is the cached one. *)
Theorem trackScroll_moves_cursor (dom : Dom) (s : Session) :
  let x := Window.scrollLeft (dom_window dom) in
  let y := Window.scrollTop (dom_window dom) in
  scrollLeft (trackScroll dom s) = x
  /\ scrollTop (trackScroll dom s) = y
  /\ currentX (trackScroll dom s) =
     (if x =? scrollLeft s then currentX s
      else currentX s + (x - scrollLeft s))
  /\ currentY (trackScroll dom s) =
     (if y =? scrollTop s then currentY s
      else currentY s + (y - scrollTop s))
  /\ currentY (trackScroll (with_scroll x 50 dom) (set_scrollTop 0 s))
     = currentY s + 50
  /\ currentX (trackScroll (with_scroll (scrollLeft s) y dom) s)
     = currentX s.
Proof.
  cbn zeta. rewrite !trackScroll_eq. cbn.
  destruct (Z.eqb_spec (Window.scrollLeft (dom_window dom)) (scrollLeft s));
    destruct (Z.eqb_spec (Window.scrollTop (dom_window dom)) (scrollTop s));
    repeat split; lia.
Qed.

(** C9.  [trackResize] leaves the scroll offsets, the cursor and the
    tracking flag as they were; [trackScroll] leaves the window size, the
    position compensation and the tracking flag as they were; and on an axis
    whose scroll offset read from the window equals the cached one,
    [trackScroll] leaves the cached offset and the cursor coordinate as they
    were. *)
Theorem tracker_frames (dom : Dom) (s : Session) :
  (scrollLeft (trackResize dom s) = scrollLeft s
   /\ scrollTop (trackResize dom s) = scrollTop s
   /\ currentX (trackResize dom s) = currentX s
   /\ currentY (trackResize dom s) = currentY s
   /\ mouseTrackingActive (trackResize dom s) = mouseTrackingActive s)
  /\ (windowWidth (trackScroll dom s) = windowWidth s
      /\ windowHeight (trackScroll dom s) = windowHeight s
      /\ positionCompensation (trackScroll dom s) = positionCompensation s
      /\ mouseTrackingActive (trackScroll dom s) = mouseTrackingActive s)
  /\ (Window.scrollLeft (dom_window dom) = scrollLeft s ->
      scrollLeft (trackScroll dom s) = scrollLeft s
      /\ currentX (trackScroll dom s) = currentX s)
  /\ (Window.scrollTop (dom_window dom) = scrollTop s ->
      scrollTop (trackScroll dom s) = scrollTop s
      /\ currentY (trackScroll dom s) = currentY s).
Proof.
  split; [repeat split |].
  rewrite trackScroll_eq. cbn. repeat split; lia.
Qed.

Lemma tracker_frames_witness :
  let dom := mkDom (Window.mk 0 120 1000 800) example_body in
  let s := mkSession 0 70 1000 800 Offsets.zero 300 400 true in
  Window.scrollLeft (dom_window dom) = scrollLeft s
  /\ scrollLeft (trackScroll dom s) = 0
  /\ currentX (trackScroll dom s) = 300
  /\ currentY (trackScroll dom s) = 450.
Proof.
  intros dom s.
  destruct (tracker_frames dom s) as (_ & _ & Hx & _).
  split; [reflexivity |].
  destruct (Hx eq_refl) as [H1 H2].
  split; [exact H1 |]. split; [exact H2 | reflexivity].
Defined.

(** ** isMouseOver *)

(** C5.  [isMouseOver] answers true if and only if the cached cursor lies in
    the closed rectangle [left, left + width] by [top, top + height], where
    [(left, top)] is the document offset of the element and [width] and
    [height] are the sides of its bounding rectangle; a cursor whose x is
    exactly the left offset is over the element if and only if its y lies in
    the closed vertical range and the width is not negative.  The session is
    only read. *)
Theorem isMouseOver_closed_rectangle (s : Session) (el : Element.t) :
  let left := Position.left (Element.offset el) in
  let top := Position.top (Element.offset el) in
  let width := Rect.right (Element.boundingClientRect el)
               - Rect.left (Element.boundingClientRect el) in
  let height := Rect.bottom (Element.boundingClientRect el)
                - Rect.top (Element.boundingClientRect el) in
  (isMouseOver s el = true <->
   (left <= currentX s <= left + width) /\ (top <= currentY s <= top + height))
  /\ (isMouseOver (set_currentX left s) el = true <->
      0 <= width /\ (top <= currentY s <= top + height)).
Proof.
  unfold isMouseOver. cbn. split; lia.
Qed.

(** ** initTracking *)

Lemma handlers_for_app target type l1 l2 :
  handlers_for target type (l1 ++ l2) =
  handlers_for target type l1 ++ handlers_for target type l2.
Proof. unfold handlers_for. now rewrite filter_app, map_app. Qed.

Section TrackingProperties.

Variable EVENT_NAMESPACE : string.

(** jQuery reads [EVENT_NAMESPACE] as a namespace when it is empty or begins
    with a dot. *)
Hypothesis EVENT_NAMESPACE_namespace :
  EVENT_NAMESPACE = EmptyString
  \/ exists rest, EVENT_NAMESPACE = String "."%char rest.

Lemma initTracking_active dom w :
  mouseTrackingActive (w_session (initTracking EVENT_NAMESPACE dom w)) = true.
Proof.
  unfold initTracking.
  destruct (mouseTrackingActive (w_session w)) eqn:E; cbn; [exact E | reflexivity].
Qed.

(** A call with the flag set changes nothing. *)
Lemma initTracking_guard dom w :
  mouseTrackingActive (w_session w) = true ->
  initTracking EVENT_NAMESPACE dom w = w.
Proof. unfold initTracking. now intros ->. Qed.

(** What one call attaches for each of the three native events. *)
Lemma initTracking_handlers dom w :
  let w' := initTracking EVENT_NAMESPACE dom w in
  let added (h : Handler) :=
    if mouseTrackingActive (w_session w) then [] else [h] in
  handlers_for T_document "mousemove" (w_listeners w') =
    handlers_for T_document "mousemove" (w_listeners w) ++ added H_trackMouse
  /\ handlers_for T_window "resize" (w_listeners w') =
       handlers_for T_window "resize" (w_listeners w) ++ added H_trackResize
  /\ handlers_for T_window "scroll" (w_listeners w') =
       handlers_for T_window "scroll" (w_listeners w) ++ added H_trackScroll.
Proof.
  unfold initTracking.
  destruct (mouseTrackingActive (w_session w)); cbn [negb].
  - cbn. rewrite !app_nil_r. repeat split.
  - cbn [w_listeners]. unfold jq_on. rewrite !handlers_for_app.
    destruct EVENT_NAMESPACE_namespace as [-> | [rest ->]];
      cbn; rewrite ?app_nil_r; repeat split.
Qed.

(** C7.  Calling [initTracking] a second time, whatever the browser answers
    then, gives back the world that the first call left: the same session,
    the same attached handlers and the same ready callbacks.  The first call
    leaves the tracking flag set, and attaches one handler for each of
    mousemove, resize and scroll when the flag was not set before, and none
    when it was; so after two calls on a world whose flag is off and which
    has nothing attached, each of the three events runs exactly one
    handler. *)
Theorem initTracking_idempotent (dom1 dom2 : Dom) (w : World) :
  let w1 := initTracking EVENT_NAMESPACE dom1 w in
  let w2 := initTracking EVENT_NAMESPACE dom2 w1 in
  let added (h : Handler) :=
    if mouseTrackingActive (w_session w) then [] else [h] in
  w2 = w1
  /\ mouseTrackingActive (w_session w1) = true
  /\ handlers_for T_document "mousemove" (w_listeners w2) =
       handlers_for T_document "mousemove" (w_listeners w) ++ added H_trackMouse
  /\ handlers_for T_window "resize" (w_listeners w2) =
       handlers_for T_window "resize" (w_listeners w) ++ added H_trackResize
  /\ handlers_for T_window "scroll" (w_listeners w2) =
       handlers_for T_window "scroll" (w_listeners w) ++ added H_trackScroll
  /\ (mouseTrackingActive (w_session w) = false -> w_listeners w = [] ->
      handlers_for T_document "mousemove" (w_listeners w2) = [H_trackMouse]
      /\ handlers_for T_window "resize" (w_listeners w2) = [H_trackResize]
      /\ handlers_for T_window "scroll" (w_listeners w2) = [H_trackScroll]
      /\ w_session w2 =
         getViewportDimensions dom1 (set_mouseTrackingActive true (w_session w))).
Proof.
  intros w1 w2 added.
  assert (E : w2 = w1).
  { apply initTracking_guard, initTracking_active. }
  destruct (initTracking_handlers dom1 w) as (Hm & Hr & Hs).
  fold w1 in Hm, Hr, Hs. fold added in Hm, Hr, Hs.
  rewrite E.
  split; [reflexivity |].
  split; [apply initTracking_active |].
  split; [exact Hm |]. split; [exact Hr |]. split; [exact Hs |].
  intros Hoff Hnil. rewrite Hm, Hr, Hs. subst added. rewrite Hoff, Hnil.
  repeat split. subst w1. unfold initTracking. now rewrite Hoff.
Qed.

End TrackingProperties.

Lemma initTracking_idempotent_witness :
  let dom1 := mkDom (Window.mk 0 0 1000 800) example_body in
  let dom2 := mkDom (Window.mk 5 50 640 480) example_body in
  let w := mkWorld (mkSession 0 0 0 0 Offsets.zero 0 0 false) [] [] in
  let w1 := initTracking ".powertip" dom1 w in
  let w2 := initTracking ".powertip" dom2 w1 in
  w2 = w1
  /\ handlers_for T_window "scroll" (w_listeners w2) = [H_trackScroll]
  /\ windowWidth (w_session w2) = 1000.
Proof.
  intros dom1 dom2 w w1 w2.
  destruct (initTracking_idempotent ".powertip"
              (or_intror (ex_intro _ "powertip"%string eq_refl)) dom1 dom2 w)
    as (E & _ & _ & _ & _ & Hfresh).
  destruct (Hfresh eq_refl eq_refl) as (_ & _ & Hs & Hsess).
  split; [exact E |]. split; [exact Hs |].
  change (windowWidth (w_session w2) = 1000).
  unfold w2, w1. rewrite Hsess. reflexivity.
Defined.

(** * Further properties *)

(** ** The viewport cache *)

(** X1.  For a body positioned absolute, fixed or relative whose metrics
    are integers, as is the window width: the top and left offsets are the
    body's document offset, and the left offset, the body's outer width
    without margin and the right offset add up to the window width, whatever
    the margins and [position().left] are. *)
Theorem computePositionCompensation_tiles_window
    (body : Body.t) (ww wh : Z) (Hp : positioned body = true)
    (Hr : integer_pixels
            [ww; Body.outerWidth_true body; Body.outerWidth body;
             Position.left (Body.offset body);
             Position.left (Body.position body)]) :
  Offsets.top (computePositionCompensation body ww wh)
  = Position.top (Body.offset body)
  /\ Offsets.left (computePositionCompensation body ww wh)
     = Position.left (Body.offset body)
  /\ Offsets.left (computePositionCompensation body ww wh)
     + Body.outerWidth body
     + Offsets.right (computePositionCompensation body ww wh) = ww.
Proof.
  unfold positioned in Hp. unfold computePositionCompensation.
  rewrite Hp. cbn. repeat split; lia.
Qed.

Lemma computePositionCompensation_tiles_window_witness :
  positioned example_body = true
  /\ Offsets.left (computePositionCompensation example_body 1000 800)
     + 960
     + Offsets.right (computePositionCompensation example_body 1000 800)
     = 1000.
Proof.
  split; [reflexivity |].
  refine (proj2 (proj2
    (computePositionCompensation_tiles_window example_body 1000 800 eq_refl _))).
  unfold integer_pixels. repeat constructor; cbn; lia.
Defined.

(** X2.  When the position of the body is none of absolute, fixed and
    relative (static, sticky, anything else), the session left by
    [getViewportDimensions] makes [getViewportCollisions] test against the
    plain window: the mask is the one computed from the scroll offsets and
    the size of the window with zero compensation, whatever the geometry of
    the body and the earlier session were. *)
Theorem getViewportCollisions_plain_window
    (dom : Dom) (s : Session) (c : Coords.t) (w h : Z)
    (Hp : positioned (dom_body dom) = false) :
  getViewportCollisions (getViewportDimensions dom s) c w h =
  getViewportCollisions
    (mkSession (Window.scrollLeft (dom_window dom))
       (Window.scrollTop (dom_window dom))
       (Window.width (dom_window dom)) (Window.height (dom_window dom))
       Offsets.zero 0 0 false)
    c w h.
Proof.
  unfold getViewportDimensions. cbn.
  rewrite (computePositionCompensation_static _ _ _ Hp). reflexivity.
Qed.

Lemma getViewportCollisions_plain_window_witness :
  let dom :=
    mkDom (Window.mk 0 0 1000 800)
      (Body.mk "static" (Position.mk 8 8) (Position.mk 0 0) 1000 984 600 584) in
  positioned (dom_body dom) = false
  /\ getViewportCollisions (getViewportDimensions dom example_session)
       (Coords.mk (-5) 10 0 0) 100 100 = Collision.top.
Proof.
  intros dom. split; [reflexivity |].
  rewrite (getViewportCollisions_plain_window dom example_session
             (Coords.mk (-5) 10 0 0) 100 100 eq_refl).
  reflexivity.
Defined.

(** X3.  [getViewportDimensions] overwrites the whole viewport cache from
    the browser: a refresh after another refresh gives what the last one
    alone gives (so it is idempotent), it is [trackResize] after storing the
    scroll offsets, it keeps the cursor and the tracking flag, and a resize
    or scroll event that arrives while the browser still answers the same
    changes nothing, the cursor included. *)
Theorem getViewportDimensions_refresh (dom dom' : Dom) (s : Session) :
  getViewportDimensions dom (getViewportDimensions dom' s)
  = getViewportDimensions dom s
  /\ getViewportDimensions dom s
     = trackResize dom
         (set_scrollTop (Window.scrollTop (dom_window dom))
            (set_scrollLeft (Window.scrollLeft (dom_window dom)) s))
  /\ trackResize dom (getViewportDimensions dom s) = getViewportDimensions dom s
  /\ trackScroll dom (getViewportDimensions dom s) = getViewportDimensions dom s
  /\ currentX (getViewportDimensions dom s) = currentX s
  /\ currentY (getViewportDimensions dom s) = currentY s
  /\ mouseTrackingActive (getViewportDimensions dom s) = mouseTrackingActive s.
Proof.
  repeat split.
  rewrite trackScroll_eq. unfold getViewportDimensions. cbn.
  unfold set_positionCompensation. cbn. f_equal; lia.
Qed.

(** X4.  On integer scroll offsets and cursor coordinates, [trackScroll]
    keeps the position of the cursor relative to the viewport: cursor minus
    cached scroll offset is the same before and after, on both axes. *)
Theorem trackScroll_keeps_viewport_position (dom : Dom) (s : Session)
    (Hr : integer_pixels
            [currentX s; currentY s; scrollLeft s; scrollTop s;
             Window.scrollLeft (dom_window dom);
             Window.scrollTop (dom_window dom)]) :
  currentX (trackScroll dom s) - scrollLeft (trackScroll dom s)
  = currentX s - scrollLeft s
  /\ currentY (trackScroll dom s) - scrollTop (trackScroll dom s)
     = currentY s - scrollTop s.
Proof. rewrite trackScroll_eq. cbn. lia. Qed.

Lemma trackScroll_keeps_viewport_position_witness :
  let s := mkSession 0 70 1000 800 Offsets.zero 300 400 true in
  let dom := mkDom (Window.mk 15 500 1000 800) example_body in
  currentX (trackScroll dom s) - scrollLeft (trackScroll dom s) = 300
  /\ currentY (trackScroll dom s) - scrollTop (trackScroll dom s) = 330.
Proof.
  intros s dom.
  refine (trackScroll_keeps_viewport_position dom s _).
  unfold integer_pixels. repeat constructor; cbn; lia.
Defined.

(** X5.  On integer scroll offsets and cursor coordinates, scroll events
    coalesce: handling two scroll events in a row leaves the session that
    handling the second one alone leaves. *)
Theorem trackScroll_coalesces (dom1 dom2 : Dom) (s : Session)
    (Hr : integer_pixels
            [currentX s; currentY s; scrollLeft s; scrollTop s;
             Window.scrollLeft (dom_window dom1);
             Window.scrollTop (dom_window dom1);
             Window.scrollLeft (dom_window dom2);
             Window.scrollTop (dom_window dom2)]) :
  trackScroll dom2 (trackScroll dom1 s) = trackScroll dom2 s.
Proof. rewrite !trackScroll_eq. cbn. f_equal; lia. Qed.

Lemma trackScroll_coalesces_witness :
  let s := mkSession 0 70 1000 800 Offsets.zero 300 400 true in
  let dom1 := mkDom (Window.mk 15 500 1000 800) example_body in
  let dom2 := mkDom (Window.mk 40 90 1000 800) example_body in
  trackScroll dom2 (trackScroll dom1 s) = trackScroll dom2 s
  /\ currentY (trackScroll dom2 s) = 420.
Proof.
  intros s dom1 dom2. split; [| reflexivity].
  refine (trackScroll_coalesces dom1 dom2 s _).
  unfold integer_pixels. repeat constructor; cbn; lia.
Defined.

(** X6.  On integer scroll offsets and cursor coordinates, scrolling away
    and back restores the session: when the second scroll event reads the
    offsets that were cached before the first, the session, cursor
    included, is what it was. *)
Theorem trackScroll_round_trip (dom1 dom0 : Dom) (s : Session)
    (Hx : Window.scrollLeft (dom_window dom0) = scrollLeft s)
    (Hy : Window.scrollTop (dom_window dom0) = scrollTop s)
    (Hr : integer_pixels
            [currentX s; currentY s; scrollLeft s; scrollTop s;
             Window.scrollLeft (dom_window dom1);
             Window.scrollTop (dom_window dom1)]) :
  trackScroll dom0 (trackScroll dom1 s) = s.
Proof.
  rewrite !trackScroll_eq, Hx, Hy.
  destruct s. cbn. f_equal; lia.
Qed.

Lemma trackScroll_round_trip_witness :
  let s := mkSession 0 70 1000 800 Offsets.zero 300 400 true in
  let away := mkDom (Window.mk 15 500 1000 800) example_body in
  let back := mkDom (Window.mk 0 70 1000 800) example_body in
  currentY (trackScroll away s) = 830
  /\ trackScroll back (trackScroll away s) = s.
Proof.
  intros s away back. split; [reflexivity |].
  refine (trackScroll_round_trip away back s eq_refl eq_refl _).
  unfold integer_pixels. repeat constructor; cbn; lia.
Defined.

(** X7.  A mousemove overwrites the cursor: after [trackMouse] the cursor is
    the event's page position whatever scroll adjustments were made before,
    and the last of two mousemoves wins; a scroll that follows shifts that
    position by the scroll delta.  [trackMouse] leaves the viewport cache
    and the flag alone. *)
Theorem trackMouse_overwrites_cursor
    (e e' : MouseEvent) (dom : Dom) (s : Session) :
  currentX (trackMouse e (trackScroll dom s)) = pageX e
  /\ currentY (trackMouse e (trackScroll dom s)) = pageY e
  /\ trackMouse e (trackMouse e' s) = trackMouse e s
  /\ currentX (trackScroll dom (trackMouse e s))
     = pageX e + (Window.scrollLeft (dom_window dom) - scrollLeft s)
  /\ currentY (trackScroll dom (trackMouse e s))
     = pageY e + (Window.scrollTop (dom_window dom) - scrollTop s)
  /\ scrollLeft (trackMouse e s) = scrollLeft s
  /\ scrollTop (trackMouse e s) = scrollTop s
  /\ windowWidth (trackMouse e s) = windowWidth s
  /\ windowHeight (trackMouse e s) = windowHeight s
  /\ positionCompensation (trackMouse e s) = positionCompensation s
  /\ mouseTrackingActive (trackMouse e s) = mouseTrackingActive s.
Proof. rewrite !trackScroll_eq. repeat split. Qed.

(** X8.  The resize handler commutes with the scroll handler and with the
    mousemove handler, so the order in which these events are delivered does
    not matter; and of two resize events in a row only the last counts. *)
Theorem trackResize_commutes
    (dom1 dom2 : Dom) (e : MouseEvent) (s : Session) :
  trackResize dom1 (trackScroll dom2 s) = trackScroll dom2 (trackResize dom1 s)
  /\ trackResize dom1 (trackMouse e s) = trackMouse e (trackResize dom1 s)
  /\ trackResize dom1 (trackResize dom2 s) = trackResize dom1 s.
Proof. rewrite !trackScroll_eq. repeat split. Qed.

(** ** Hover test *)

(** X9.  On integer coordinates, only relative positions matter to
    [isMouseOver]: moving the cursor and the document offset of the element
    by the same amount does not change the answer, and neither does moving
    the bounding rectangle, of which only the width and the height are used.
    Hence after a scroll event the element is hovered exactly when, before
    it, the element moved back by the scroll delta was. *)
Theorem isMouseOver_translation
    (dx dy rx ry : Z) (dom : Dom) (s : Session) (el : Element.t)
    (Hr : integer_pixels
            [dx; dy; rx; ry; currentX s; currentY s; scrollLeft s;
             scrollTop s; Window.scrollLeft (dom_window dom);
             Window.scrollTop (dom_window dom);
             Position.left (Element.offset el);
             Position.top (Element.offset el);
             Rect.left (Element.boundingClientRect el);
             Rect.top (Element.boundingClientRect el);
             Rect.right (Element.boundingClientRect el);
             Rect.bottom (Element.boundingClientRect el)]) :
  isMouseOver (shift_cursor dx dy s) (shift_element dx dy rx ry el)
  = isMouseOver s el
  /\ isMouseOver (trackScroll dom s) el
     = isMouseOver s
         (shift_element (scrollLeft s - Window.scrollLeft (dom_window dom))
            (scrollTop s - Window.scrollTop (dom_window dom)) 0 0 el).
Proof.
  split.
  - unfold isMouseOver, shift_cursor, shift_element. cbn.
    apply Bool.eq_iff_eq_true. rewrite !andb_true_iff. lia.
  - rewrite trackScroll_eq. unfold isMouseOver, shift_element. cbn.
    apply Bool.eq_iff_eq_true. rewrite !andb_true_iff. lia.
Qed.

Lemma isMouseOver_translation_witness :
  let s := mkSession 0 70 1000 800 Offsets.zero 300 400 true in
  let dom := mkDom (Window.mk 0 170 1000 800) example_body in
  let el := Element.mk (Position.mk 480 250) (Rect.mk 250 410 350 440) in
  isMouseOver s el = false
  /\ isMouseOver (trackScroll dom s) el = true
  /\ isMouseOver s (shift_element 0 (-100) 0 0 el) = true.
Proof.
  intros s dom el. split; [reflexivity |].
  assert (Hr : integer_pixels
            [0; 0; 0; 0; currentX s; currentY s; scrollLeft s;
             scrollTop s; Window.scrollLeft (dom_window dom);
             Window.scrollTop (dom_window dom);
             Position.left (Element.offset el);
             Position.top (Element.offset el);
             Rect.left (Element.boundingClientRect el);
             Rect.top (Element.boundingClientRect el);
             Rect.right (Element.boundingClientRect el);
             Rect.bottom (Element.boundingClientRect el)]).
  { unfold integer_pixels. repeat constructor; cbn; lia. }
  destruct (isMouseOver_translation 0 0 0 0 dom s el Hr) as [_ E].
  split; [rewrite E; reflexivity | reflexivity].
Defined.

(** X10.  An element whose bounding rectangle has no width and no height is
    hovered at exactly one cursor position, its document offset. *)
Theorem isMouseOver_zero_size (s : Session) (el : Element.t)
    (Hw : Rect.right (Element.boundingClientRect el)
          = Rect.left (Element.boundingClientRect el))
    (Hh : Rect.bottom (Element.boundingClientRect el)
          = Rect.top (Element.boundingClientRect el)) :
  isMouseOver s el = true <->
  currentX s = Position.left (Element.offset el)
  /\ currentY s = Position.top (Element.offset el).
Proof.
  unfold isMouseOver. cbn. rewrite Hw, Hh, !andb_true_iff. lia.
Qed.

Lemma isMouseOver_zero_size_witness :
  let el := Element.mk (Position.mk 40 30) (Rect.mk 7 9 7 9) in
  isMouseOver (mkSession 0 0 0 0 Offsets.zero 30 40 true) el = true
  /\ isMouseOver (mkSession 0 0 0 0 Offsets.zero 31 40 true) el <> true.
Proof.
  intros el. split.
  - apply (isMouseOver_zero_size _ el eq_refl eq_refl). split; reflexivity.
  - intros H.
    apply (isMouseOver_zero_size _ el eq_refl eq_refl) in H.
    destruct H as [H _]. discriminate H.
Defined.

(** X11.  Right after a mousemove the hover test depends on nothing but the
    event and the element: the element is hovered exactly when the page
    position of the event lies in its closed rectangle. *)
Theorem isMouseOver_after_trackMouse
    (e : MouseEvent) (s : Session) (el : Element.t) :
  isMouseOver (trackMouse e s) el = true <->
  (Position.left (Element.offset el) <= pageX e
   <= Position.left (Element.offset el)
      + (Rect.right (Element.boundingClientRect el)
         - Rect.left (Element.boundingClientRect el)))
  /\ (Position.top (Element.offset el) <= pageY e
      <= Position.top (Element.offset el)
         + (Rect.bottom (Element.boundingClientRect el)
            - Rect.top (Element.boundingClientRect el))).
Proof. unfold isMouseOver, trackMouse. cbn. lia. Qed.

(** ** Collision masks *)

(** X12.  [getViewportCollisions] reads the scroll offsets, the window size
    and the top and left compensation only: the cursor, the tracking flag
    and the right and bottom compensation offsets have no influence on the
    mask.  So a mousemove never changes the mask of a placement, and a scroll
    event changes it no more than storing the two scroll offsets does. *)
Theorem getViewportCollisions_reads
    (s : Session) (c : Coords.t) (w h : Z)
    (r b cx cy : Z) (act : bool) (e : MouseEvent) (dom : Dom) :
  getViewportCollisions
    (mkSession (scrollLeft s) (scrollTop s) (windowWidth s) (windowHeight s)
       (Offsets.mk (Offsets.top (positionCompensation s))
          (Offsets.left (positionCompensation s)) r b)
       cx cy act)
    c w h
  = getViewportCollisions s c w h
  /\ getViewportCollisions (trackMouse e s) c w h
     = getViewportCollisions s c w h
  /\ getViewportCollisions (trackScroll dom s) c w h
     = getViewportCollisions
         (set_scrollTop (Window.scrollTop (dom_window dom))
            (set_scrollLeft (Window.scrollLeft (dom_window dom)) s))
         c w h.
Proof. rewrite trackScroll_eq. repeat split. Qed.

(** X13.  An element higher than the window always collides at the top or
    at the bottom, and an element wider than the window always collides at
    the left or at the right, wherever it is placed. *)
Theorem getViewportCollisions_oversize
    (s : Session) (c : Coords.t) (w h : Z) :
  (windowHeight s < h ->
   Z.land (getViewportCollisions s c w h) Collision.top = Collision.top
   \/ Z.land (getViewportCollisions s c w h) Collision.bottom
      = Collision.bottom)
  /\ (windowWidth s < w ->
      Z.land (getViewportCollisions s c w h) Collision.left = Collision.left
      \/ Z.land (getViewportCollisions s c w h) Collision.right
         = Collision.right).
Proof.
  destruct (getViewportCollisions_cases s c w h)
    as (bt & bb & bl & br & Ht & Hb & Hl & Hr & ->).
  unfold Rules.top, Rules.bottom, Rules.left, Rules.right,
    Rules.viewportBottom, Rules.viewportRight in *.
  split; intros Hbig.
  - assert (Hv : bt = true \/ bb = true).
    { destruct bt; [now left | right]. apply Hb. left.
      assert (~ Coords.top c < Rules.viewportTop s).
      { intros H. assert (false = true) by (apply Ht; now left). discriminate. }
      lia. }
    destruct Hv as [E | E]; subst; [left | right];
      repeat match goal with x : bool |- _ => destruct x end; reflexivity.
  - assert (Hv : bl = true \/ br = true).
    { destruct bl; [now left | right]. apply Hr. left.
      assert (~ Coords.left c < Rules.viewportLeft s).
      { intros H. assert (false = true) by (apply Hl; now left). discriminate. }
      lia. }
    destruct Hv as [E | E]; subst; [left | right];
      repeat match goal with x : bool |- _ => destruct x end; reflexivity.
Qed.

Lemma getViewportCollisions_oversize_witness :
  windowHeight example_session < 801
  /\ (Z.land (getViewportCollisions example_session (Coords.mk 0 0 0 0) 10 801)
        Collision.top = Collision.top
      \/ Z.land (getViewportCollisions example_session (Coords.mk 0 0 0 0) 10 801)
           Collision.bottom = Collision.bottom).
Proof.
  split; [reflexivity |].
  apply (proj1 (getViewportCollisions_oversize example_session
                  (Coords.mk 0 0 0 0) 10 801)).
  reflexivity.
Defined.

(** X14.  [countFlags] of a collision mask is the number of edge rules that
    the placement violates, a number from 0 to 4. *)
Theorem countFlags_getViewportCollisions
    (s : Session) (c : Coords.t) (w h : Z) :
  exists bt bb bl br : bool,
    (bt = true <-> Rules.top s c h)
    /\ (bb = true <-> Rules.bottom s c h)
    /\ (bl = true <-> Rules.left s c w)
    /\ (br = true <-> Rules.right s c w)
    /\ countFlags (getViewportCollisions s c w h)
       = Z.b2z bt + Z.b2z bb + Z.b2z bl + Z.b2z br.
Proof.
  destruct (getViewportCollisions_cases s c w h)
    as (bt & bb & bl & br & Ht & Hb & Hl & Hr & ->).
  exists bt, bb, bl, br. repeat (split; [assumption |]).
  destruct bt, bb, bl, br; reflexivity.
Qed.

(** ** countFlags on arbitrary integers *)

(** X15.  On every integer of magnitude below 2^53, negative ones and ones
    beyond 32 bits included, [countFlags] returns a number from 0 to 32, and
    it returns 0 for the value 0 only. *)
Theorem countFlags_range (v : Z) (Hv : - 2 ^ 53 < v < 2 ^ 53) :
  0 <= countFlags v <= 32 /\ (countFlags v = 0 <-> v = 0).
Proof.
  destruct (countFlags_exit v) as (n & Hn & Hguard & Hexit & Hres & _).
  split; [lia |]. split.
  - intros H0. assert (n = 0%nat) by lia. subst n. exact Hexit.
  - intros ->. reflexivity.
Qed.

Lemma countFlags_range_witness :
  - 2 ^ 53 < 1099511627783 < 2 ^ 53
  /\ 0 <= countFlags 1099511627783 <= 32
  /\ countFlags 1099511627783 = 3.
Proof.
  split; [lia |].
  split; [exact (proj1 (countFlags_range 1099511627783 ltac:(lia))) |].
  reflexivity.
Defined.

(** X16.  On a 32-bit integer, negative or not, [countFlags] returns the
    number of ones of its two's complement image: the set bits of [v] for
    [0 <= v], those of [v + 2^32] for [v < 0]. *)
Theorem countFlags_twos_complement (v : Z) (Hv : - 2 ^ 31 <= v < 2 ^ 31) :
  countFlags v = Z.of_nat (popcount (if v <? 0 then v + 2 ^ 32 else v)).
Proof.
  destruct (countFlags_int32 v (or_introl Hv)) as [_ ->].
  unfold popcount32. do 2 f_equal.
  destruct (Z.ltb_spec v 0).
  - symmetry. apply Z.mod_unique with (q := -1); lia.
  - apply Z.mod_small. lia.
Qed.

Lemma countFlags_twos_complement_witness :
  - 2 ^ 31 <= -1 < 2 ^ 31 /\ countFlags (-1) = 32.
Proof.
  split; [lia |].
  exact (countFlags_twos_complement (-1) ltac:(lia)).
Defined.

Lemma popcount_pos_lor_disjoint p q :
  Pos.land p q = 0%N ->
  popcount_pos (Pos.lor p q) = (popcount_pos p + popcount_pos q)%nat.
Proof.
  revert q. induction p as [p IH | p IH |]; intros [q | q |]; cbn;
    intros H; try discriminate;
    try (destruct (Pos.land p q) eqn:E; try discriminate;
         rewrite (IH q E)); lia.
Qed.

Lemma popcount_lor_disjoint a b :
  0 <= a -> 0 <= b -> Z.land a b = 0 ->
  popcount (Z.lor a b) = (popcount a + popcount b)%nat.
Proof.
  destruct a as [| p | p], b as [| q | q]; intros Ha Hb H; try lia;
    cbn; try lia.
  apply popcount_pos_lor_disjoint.
  cbn in H. destruct (Pos.land p q); [reflexivity | discriminate].
Qed.

Lemma lor_mod_pow2 a b n :
  0 <= n -> Z.lor a b mod 2 ^ n = Z.lor (a mod 2 ^ n) (b mod 2 ^ n).
Proof.
  intros Hn. rewrite <- !Z.land_ones by assumption.
  apply Z.bits_inj'. intros i Hi.
  rewrite !Z.land_spec, !Z.lor_spec, !Z.land_spec.
  destruct (Z.testbit a i), (Z.testbit b i), (Z.testbit (Z.ones n) i); reflexivity.
Qed.

(** X17.  Flags add up: for 32-bit integers [a] and [b] that share no bit
    ([a & b] is 0), [countFlags (a | b)] is [countFlags a + countFlags b]. *)
Theorem countFlags_bor_disjoint (a b : Z)
    (Ha : - 2 ^ 31 <= a < 2 ^ 31) (Hb : - 2 ^ 31 <= b < 2 ^ 31)
    (Hd : JS.band a b = 0) :
  countFlags (JS.bor a b) = countFlags a + countFlags b.
Proof.
  destruct (countFlags_int32 a (or_introl Ha)) as [_ ->].
  destruct (countFlags_int32 b (or_introl Hb)) as [_ ->].
  destruct (countFlags_int32 (JS.bor a b) (or_introl (bor_range a b))) as [_ ->].
  rewrite <- Nat2Z.inj_add. f_equal. unfold popcount32.
  assert (Hor : JS.bor a b mod 2 ^ 32 = Z.lor (a mod 2 ^ 32) (b mod 2 ^ 32)).
  { unfold JS.bor. rewrite lor_mod_pow2 by lia. now rewrite !to_int32_mod. }
  rewrite Hor. apply popcount_lor_disjoint.
  - apply Z.mod_pos_bound. lia.
  - apply Z.mod_pos_bound. lia.
  - rewrite <- band_mod, Hd. reflexivity.
Qed.

Lemma countFlags_bor_disjoint_witness :
  JS.band 5 8 = 0 /\ countFlags (JS.bor 5 8) = countFlags 5 + countFlags 8.
Proof.
  split; [reflexivity |].
  exact (countFlags_bor_disjoint 5 8 ltac:(lia) ltac:(lia) eq_refl).
Defined.

(** ** Tooltip content *)

Section TooltipContentProperties.

Variables (Node JQ : Type).
Variable jq_length : JQ -> nat.
Variable jq_clone : JQ -> JQ.
Variable jq_html : JQ -> string.

(** X18.  The stored text comes first.  A non-empty stored string is the
    content, whatever object and target are stored with it and whatever the
    document holds.  When the stored text is a function, the content is what
    the call returns, as it is: if the call returns [undefined], so does
    [getTooltipContent], even with an object or a target stored. *)
Theorem getTooltipContent_text_first
    (jq_select : string -> JQ) (n : Node) (s : string)
    (f : Node -> option (Content JQ))
    (object : option (TipObject Node JQ)) (target : option string)
    (Hs : s <> EmptyString) :
  getTooltipContent jq_length jq_clone jq_html jq_select
    (mkTipElement n (Some (TT_string s)) object target)
  = Some (C_string s)
  /\ getTooltipContent jq_length jq_clone jq_html jq_select
       (mkTipElement n (Some (TT_function f)) object target)
     = f n.
Proof.
  split; [| reflexivity].
  unfold getTooltipContent. cbn.
  destruct s; [congruence | reflexivity].
Qed.

(** X19.  An empty string counts as nothing stored: an empty stored text
    gives the content that no stored text gives, and an empty stored target
    the content that no stored target gives. *)
Theorem getTooltipContent_empty_string
    (jq_select : string -> JQ) (n : Node)
    (text : option (TipText Node JQ))
    (object : option (TipObject Node JQ)) (target : option string) :
  getTooltipContent jq_length jq_clone jq_html jq_select
    (mkTipElement n (Some (TT_string EmptyString)) object target)
  = getTooltipContent jq_length jq_clone jq_html jq_select
      (mkTipElement n None object target)
  /\ getTooltipContent jq_length jq_clone jq_html jq_select
       (mkTipElement n text object (Some EmptyString))
     = getTooltipContent jq_length jq_clone jq_html jq_select
         (mkTipElement n text object None).
Proof.
  split; [reflexivity |].
  unfold getTooltipContent. cbn.
  destruct (truthy_tipText text); [reflexivity |].
  destruct object; reflexivity.
Qed.

(** X20.  A stored object shuts the target out.  When the stored text is
    falsy and a jQuery object is stored, the content is the same whatever
    target is stored and whatever the document holds.  When the stored text
    is falsy and an object or a function is stored, the content is never a
    string, and it is [undefined] exactly when the object (the stored one,
    or the one the call returns) is empty, even if a target is stored. *)
Theorem getTooltipContent_object_shuts_target
    (jq_select jq_select' : string -> JQ) (n : Node)
    (text : option (TipText Node JQ)) (stored : JQ)
    (object : TipObject Node JQ) (target target' : option string)
    (Ht : truthy_tipText text = false) :
  let j := match object with
           | TO_function f => f n
           | TO_jquery j => j
           end in
  getTooltipContent jq_length jq_clone jq_html jq_select
    (mkTipElement n text (Some (TO_jquery stored)) target)
  = getTooltipContent jq_length jq_clone jq_html jq_select'
      (mkTipElement n text (Some (TO_jquery stored)) target')
  /\ (getTooltipContent jq_length jq_clone jq_html jq_select
        (mkTipElement n text (Some object) target) = None
      <-> jq_length j = 0%nat)
  /\ (forall s,
        getTooltipContent jq_length jq_clone jq_html jq_select
          (mkTipElement n text (Some object) target) <> Some (C_string s)).
Proof.
  intros j. unfold getTooltipContent.
  cbn [data_powertip data_powertipjq data_powertiptarget node].
  rewrite Ht. cbv zeta. fold j.
  split; [reflexivity |].
  destruct (jq_length j) as [| k]; cbn.
  - split; [split; reflexivity | discriminate].
  - split; [split; discriminate | discriminate].
Qed.

(** X21.  The target is looked up only when nothing else is stored.  With
    a falsy text, no object and a target [t] made of letters, digits,
    underscores and hyphens, the content is the HTML of the elements
    selected by ["#" ++ t] when there are any, and [undefined] when the
    document has none. *)
Theorem getTooltipContent_target_lookup
    (jq_select : string -> JQ) (n : Node)
    (text : option (TipText Node JQ)) (t : string)
    (Ht : truthy_tipText text = false) (Hid : simple_id t = true) :
  (jq_length (jq_select ("#" ++ t)%string) = 0%nat ->
   getTooltipContent jq_length jq_clone jq_html jq_select
     (mkTipElement n text None (Some t)) = None)
  /\ (jq_length (jq_select ("#" ++ t)%string) <> 0%nat ->
      getTooltipContent jq_length jq_clone jq_html jq_select
        (mkTipElement n text None (Some t))
      = Some (C_string (jq_html (jq_select ("#" ++ t)%string)))).
Proof.
  unfold getTooltipContent. cbn [data_powertip data_powertipjq
    data_powertiptarget node]. rewrite Ht.
  assert (Hs : truthy_string t = true) by (destruct t; [discriminate | reflexivity]).
  rewrite Hs. cbv zeta.
  destruct (Nat.ltb_spec 0 (jq_length (jq_select ("#" ++ t)%string)));
    split; intros Hlen; try reflexivity; lia.
Qed.

End TooltipContentProperties.

Lemma getTooltipContent_text_first_witness :
  getTooltipContent (Node := unit) (@List.length string) (fun j => j) example_html
    example_select
    (mkTipElement tt (Some (TT_string "plain")) (Some (TO_jquery [])) (Some "tip"%string))
  = Some (C_string "plain").
Proof.
  refine (proj1 (getTooltipContent_text_first unit (list string)
            (@List.length string) (fun j => j) example_html example_select tt
            "plain" (fun _ => None) (Some (TO_jquery [])) (Some "tip"%string) _)).
  discriminate.
Defined.

Lemma getTooltipContent_object_shuts_target_witness :
  getTooltipContent (Node := unit) (@List.length string) (fun j => j) example_html
    example_select
    (mkTipElement tt (Some (TT_string "")) (Some (TO_jquery [])) (Some "tip"%string))
  = None.
Proof.
  apply (proj1 (proj2 (getTooltipContent_object_shuts_target unit (list string)
           (@List.length string) (fun j => j) example_html example_select
           example_select tt (Some (TT_string "")) [] (TO_jquery [])
           (Some "tip"%string) None eq_refl))).
  reflexivity.
Defined.

Lemma getTooltipContent_target_lookup_witness :
  getTooltipContent (Node := unit) (@List.length string) (fun j => j) example_html
    example_select (mkTipElement tt None None (Some "tip"%string))
  = Some (C_string "<b>hint</b>")
  /\ getTooltipContent (Node := unit) (@List.length string) (fun j => j) example_html
       example_select (mkTipElement tt None None (Some "nowhere"%string))
     = None.
Proof.
  split.
  - apply (proj2 (getTooltipContent_target_lookup unit (list string)
             (@List.length string) (fun j => j) example_html example_select tt
             None "tip" eq_refl eq_refl)).
    cbn. discriminate.
  - apply (proj1 (getTooltipContent_target_lookup unit (list string)
             (@List.length string) (fun j => j) example_html example_select tt
             None "nowhere" eq_refl eq_refl)).
    reflexivity.
Defined.

(** ** Attaching handlers *)

(** X22.  [initTracking] only ever adds: whatever [EVENT_NAMESPACE] is, the
    listeners and the ready callbacks that were there are still there, in
    front and in order, so the handlers that ran for an event before still
    run first for it afterwards; and the cursor is not touched. *)
Theorem initTracking_only_adds
    (EVENT_NAMESPACE : string) (dom : Dom) (w : World)
    (target : Target) (type : string) :
  (exists added,
      w_listeners (initTracking EVENT_NAMESPACE dom w) = w_listeners w ++ added)
  /\ (exists added,
         w_ready (initTracking EVENT_NAMESPACE dom w) = w_ready w ++ added)
  /\ (exists added,
         handlers_for target type
           (w_listeners (initTracking EVENT_NAMESPACE dom w))
         = handlers_for target type (w_listeners w) ++ added)
  /\ currentX (w_session (initTracking EVENT_NAMESPACE dom w))
     = currentX (w_session w)
  /\ currentY (w_session (initTracking EVENT_NAMESPACE dom w))
     = currentY (w_session w).
Proof.
  unfold initTracking.
  destruct (mouseTrackingActive (w_session w)); cbn [negb].
  - repeat split; try (exists []; now rewrite app_nil_r).
  - cbn [w_listeners w_ready w_session]. unfold jq_on, jq_ready.
    rewrite <- !app_assoc.
    split; [eexists; reflexivity |].
    split; [eexists; reflexivity |].
    split; [rewrite handlers_for_app; eexists; reflexivity |].
    split; reflexivity.
Qed.
